(** * Google search operator tool: the core functions of [utils.py] and
      [search_operators.py], embedded and verified.

    Python [str] values are modelled as lists of characters ([list ascii]);
    a character stands for the Unicode code point of the same number, so the
    model covers the code points below 256.  Dictionaries are [gmap]s keyed
    by such strings.  Functions keep the names they have in the source. *)

From Stdlib Require Import Ascii String.
From stdpp Require Import gmap strings list.

Local Open Scope string_scope.
Local Open Scope list_scope.
Local Open Scope nat_scope.

(** ** Python strings *)

Abbreviation str := (list ascii).

(** String literals are read as character lists. *)
Coercion list_ascii_of_string : string >-> list.

Module Py.

Definition chr (n : nat) : ascii := ascii_of_nat n.
Definition ord (c : ascii) : nat := nat_of_ascii c.

Definition dquote : ascii := chr 34.
Definition squote : ascii := chr 39.
Definition newline : ascii := chr 10.

(** The one-character string holding a double quote. *)
Definition q : str := [dquote].

Definition ch_eqb (a b : ascii) : bool := Ascii.eqb a b.

(** [str.isspace] on one character, for the code points below 256:
    TAB..CR, FS..US, SPACE, NEL and NBSP. *)
Definition isspace (c : ascii) : bool :=
  let n := ord c in
  ((9 <=? n) && (n <=? 13)) || ((28 <=? n) && (n <=? 32))
  || (n =? 133) || (n =? 160).

Definition is_lower (c : ascii) : bool := (97 <=? ord c) && (ord c <=? 122).
Definition is_upper (c : ascii) : bool := (65 <=? ord c) && (ord c <=? 90).
Definition is_digit (c : ascii) : bool := (48 <=? ord c) && (ord c <=? 57).
Definition is_alnum (c : ascii) : bool := is_lower c || is_upper c || is_digit c.

(** [str.upper] and [str.lower], character by character.  The letters
    a..z and A..Z are mapped; the source only searches the result for the
    ASCII text [AROUND(], and no other character below 256 has an ASCII
    upper-case form, so the other characters are kept as they are. *)
Definition upper_char (c : ascii) : ascii :=
  if is_lower c then chr (ord c - 32) else c.
Definition lower_char (c : ascii) : ascii :=
  if is_upper c then chr (ord c + 32) else c.
Definition upper (s : str) : str := map upper_char s.
Definition lower (s : str) : str := map lower_char s.

(** [s.lstrip()], [s.rstrip()], [s.strip()] *)
Fixpoint lstrip (s : str) : str :=
  match s with
  | c :: s' => if isspace c then lstrip s' else s
  | [] => []
  end.
Definition rstrip (s : str) : str := reverse (lstrip (reverse s)).
Definition strip (s : str) : str := rstrip (lstrip s).

(** [s.startswith(p)]: the rest of [s] after the prefix [p], if any. *)
Fixpoint strip_prefix (p s : str) : option str :=
  match p, s with
  | [], _ => Some s
  | a :: p', b :: s' => if ch_eqb a b then strip_prefix p' s' else None
  | _ :: _, [] => None
  end.
Definition startswith (s p : str) : bool :=
  match strip_prefix p s with Some _ => true | None => false end.
Definition endswith (s p : str) : bool := startswith (reverse s) (reverse p).

(** [sub in s] *)
Fixpoint contains (sub s : str) : bool :=
  startswith s sub ||
  match s with
  | _ :: s' => contains sub s'
  | [] => false
  end.

(** [s.split()]: the maximal runs of characters that are not white space.
    [cur] is the word being scanned. *)
Fixpoint split_ws_from (cur s : str) : list str :=
  match s with
  | [] => match cur with [] => [] | _ => [cur] end
  | c :: s' =>
      if isspace c
      then match cur with
           | [] => split_ws_from [] s'
           | _ => cur :: split_ws_from [] s'
           end
      else split_ws_from (cur ++ [c]) s'
  end.
Definition split_ws (s : str) : list str := split_ws_from [] s.

(** What the words of a string are, said without an algorithm: white
    space is skipped, and a word is a non-empty run without white space
    that ends at a white-space character or at the end of the string. *)
Definition is_word (w : str) : Prop :=
  w <> [] /\ Forall (fun c => isspace c = false) w.

Inductive words_of : str -> list str -> Prop :=
| words_nil : words_of [] []
| words_skip c s ws :
    isspace c = true -> words_of s ws -> words_of (c :: s) ws
| words_last w : is_word w -> words_of w [w]
| words_next w c s ws :
    is_word w -> isspace c = true -> words_of s ws ->
    words_of (w ++ c :: s) (w :: ws).

(** [s.split(sep)] for a separator of one character: never empty. *)
Fixpoint split_on (sep : ascii) (s : str) : list str :=
  match s with
  | [] => [[]]
  | c :: s' =>
      if ch_eqb c sep then [] :: split_on sep s'
      else match split_on sep s' with
           | w :: ws => (c :: w) :: ws
           | [] => [[c]]
           end
  end.

(** [s.split(sep, 1)]: cut at the first occurrence of [sep], or the whole
    string alone. *)
Fixpoint split_once (sep s : str) : list str :=
  match strip_prefix sep s with
  | Some rest => [[]; rest]
  | None =>
      match s with
      | [] => [[]]
      | c :: s' =>
          match split_once sep s' with
          | [a; b] => [c :: a; b]
          | _ => [s]
          end
      end
  end.

(** [sep.join(parts)] *)
Fixpoint join (sep : str) (parts : list str) : str :=
  match parts with
  | [] => []
  | [w] => w
  | w :: ws => w ++ sep ++ join sep ws
  end.

(** [s.replace(c, '')] for a one-character [c] *)
Definition remove_char (c : ascii) (s : str) : str :=
  List.filter (fun x => negb (ch_eqb x c)) s.

(** [s.replace(a, b)] for one-character [a] and [b] *)
Definition replace_char (a b : ascii) (s : str) : str :=
  map (fun x => if ch_eqb x a then b else x) s.

(** [a == b] on strings *)
Fixpoint str_eqb (a b : str) : bool :=
  match a, b with
  | [], [] => true
  | x :: a', y :: b' => ch_eqb x y && str_eqb a' b'
  | _, _ => false
  end.

(** [a in l] for a list of strings *)
Definition str_in (a : str) (l : list str) : bool := existsb (str_eqb a) l.

(** A Python value in a condition: the empty string is false. *)
Definition truthy (s : str) : bool :=
  match s with [] => false | _ => true end.

End Py.

Module Urllib.

Import Py.

(** The UTF-8 bytes of a string of code points below 256: one byte below
    128, two bytes from 128 on. *)
Definition utf8_char (c : ascii) : str :=
  let n := ord c in
  if n <? 128 then [c] else [chr (192 + n / 64); chr (128 + n mod 64)].
Definition utf8 (s : str) : str := flat_map utf8_char s.

(** The bytes [urllib.parse.quote] never escapes: letters, digits and
    [_.-~]. *)
Definition always_safe (b : ascii) : bool :=
  is_alnum b || existsb (ch_eqb b) ("_.-~" : str).

Definition hex_digit (n : nat) : ascii :=
  if n <? 10 then chr (48 + n) else chr (55 + n).

(** [%XX], upper-case hexadecimal *)
Definition percent_byte (b : ascii) : str :=
  ["%"%char; hex_digit (ord b / 16); hex_digit (ord b mod 16)].

(** [urllib.parse.quote(s, safe)] *)
Definition quote (s safe : str) : str :=
  flat_map
    (fun b => if always_safe b || existsb (ch_eqb b) safe
              then [b] else percent_byte b)
    (utf8 s).

(** [urllib.parse.quote_plus(s)]: without a space the string is quoted as
    it is; otherwise the space is kept safe in the quoting and then
    replaced by [+]. *)
Definition quote_plus (s : str) : str :=
  if negb (contains " " s) then quote s []
  else replace_char " "%char "+"%char (quote s " ").

(** Form-style percent-encoding as the specification words it: every
    byte of the UTF-8 text is kept when it is unreserved, written [+] when
    it is a space, and written [%XX] otherwise. *)
Definition form_encode_byte (b : ascii) : str :=
  if always_safe b then [b]
  else if ch_eqb b " " then ["+"%char]
  else percent_byte b.
Definition form_encode (s : str) : str := flat_map form_encode_byte (utf8 s).

(** Decoding, [urllib.parse.unquote_plus]: the reading of a URL the
    specification calls its decoded query.  [+] is a space, [%XX] with two
    hexadecimal digits is the byte [XX], and the bytes are read as
    UTF-8. *)
Definition hex_val (c : ascii) : option nat :=
  let n := ord c in
  if is_digit c then Some (n - 48)
  else if (65 <=? n) && (n <=? 70) then Some (n - 55)
  else if (97 <=? n) && (n <=? 102) then Some (n - 87)
  else None.

Fixpoint unquote_bytes (s : str) : str :=
  match s with
  | [] => []
  | c :: rest =>
      if ch_eqb c "+" then " "%char :: unquote_bytes rest
      else if ch_eqb c "%" then
        match rest with
        | h :: l :: rest' =>
            match hex_val h, hex_val l with
            | Some a, Some b => chr (16 * a + b) :: unquote_bytes rest'
            | _, _ => c :: unquote_bytes rest
            end
        | _ => c :: unquote_bytes rest
        end
      else c :: unquote_bytes rest
  end.

Fixpoint utf8_decode (bs : str) : str :=
  match bs with
  | [] => []
  | b :: rest =>
      if ord b <? 128 then b :: utf8_decode rest
      else match rest with
           | b2 :: rest' =>
               chr ((ord b - 192) * 64 + (ord b2 - 128)) :: utf8_decode rest'
           | [] => [b]
           end
  end.

Definition unquote_plus (s : str) : str := utf8_decode (unquote_bytes s).

(** The characters of an encoded query: unreserved ones, [+] and [%]. *)
Definition encoded_char (c : ascii) : bool :=
  always_safe c || ch_eqb c "+" || ch_eqb c "%".

End Urllib.


(** ** Regular expressions, as far as [validate_url] uses them *)

Module Re.

Import Py.

Inductive regex : Type :=
| Void : regex
| Eps : regex
| Class : (ascii -> bool) -> regex
| Cat : regex -> regex -> regex
| Alt : regex -> regex -> regex
| Star : regex -> regex.

(** [r?] and [r{0,n}] *)
Definition opt (r : regex) : regex := Alt Eps r.
Fixpoint upto (n : nat) (r : regex) : regex :=
  match n with
  | 0 => Eps
  | S n' => Alt Eps (Cat r (upto n' r))
  end.

(** The strings a pattern matches in full. *)
Inductive matches : regex -> str -> Prop :=
| m_eps : matches Eps []
| m_class p c : p c = true -> matches (Class p) [c]
| m_cat r1 r2 s1 s2 :
    matches r1 s1 -> matches r2 s2 -> matches (Cat r1 r2) (s1 ++ s2)
| m_alt_l r1 r2 s : matches r1 s -> matches (Alt r1 r2) s
| m_alt_r r1 r2 s : matches r2 s -> matches (Alt r1 r2) s
| m_star_nil r : matches (Star r) []
| m_star_app r s1 s2 :
    matches r s1 -> matches (Star r) s2 -> matches (Star r) (s1 ++ s2).

(** Matching by derivatives. *)
Fixpoint nullable (r : regex) : bool :=
  match r with
  | Void => false
  | Eps => true
  | Class _ => false
  | Cat r1 r2 => nullable r1 && nullable r2
  | Alt r1 r2 => nullable r1 || nullable r2
  | Star _ => true
  end.

Fixpoint deriv (c : ascii) (r : regex) : regex :=
  match r with
  | Void => Void
  | Eps => Void
  | Class p => if p c then Eps else Void
  | Cat r1 r2 =>
      if nullable r1
      then Alt (Cat (deriv c r1) r2) (deriv c r2)
      else Cat (deriv c r1) r2
  | Alt r1 r2 => Alt (deriv c r1) (deriv c r2)
  | Star r1 => Cat (deriv c r1) (Star r1)
  end.

Fixpoint accepts (r : regex) (s : str) : bool :=
  match s with
  | [] => nullable r
  | c :: s' => accepts (deriv c r) s'
  end.

(** [bool(re.match('^' + body + '$', s))]: [re.match] starts at the
    beginning of [s], and [$] holds at the end of [s] and also just before
    a newline that ends [s]. *)
Definition match_anchored (body : regex) (s : str) : bool :=
  accepts body s
  || match reverse s with
     | c :: before => ch_eqb c newline && accepts body (reverse before)
     | [] => false
     end.

End Re.

(** ** [search_operators.py]: the operator catalog *)

Import Py.

Record operator_info : Type := {
  description : str;
  type : str;
  placeholder : str;
  examples : list str
}.

(** A dictionary literal: the entries are stored from left to right, so a
    key written twice keeps its last value. *)
Definition dict_literal {V : Type} (l : list (str * V)) : gmap str V :=
  foldl (fun m kv => <[kv.1 := kv.2]> m) ∅ l.

Definition SEARCH_OPERATORS_literal : list (str * operator_info) :=
  [
    (("site:" : str),
     {| description := "Search within a specific website or domain";
        type := "url";
        placeholder := "example.com";
        examples := [("site:reddit.com python tutorials" : str); ("site:github.com machine learning" : str)] |});
    (("filetype:" : str),
     {| description := "Search for specific file types";
        type := "keyword";
        placeholder := "pdf machine learning";
        examples := [("filetype:pdf machine learning" : str); ("filetype:ppt presentation tips" : str)] |});
    (("intitle:" : str),
     {| description := "Search for pages with specific words in the title";
        type := "keyword";
        placeholder := "python tutorial";
        examples := [("intitle:python tutorial" : str); (("intitle:" : str) ++ q ++ "data science" ++ q)] |});
    (("allintitle:" : str),
     {| description := "Search for pages with all specified words in the title";
        type := "keyword";
        placeholder := "python machine learning tutorial";
        examples := [("allintitle:python machine learning" : str); ("allintitle:web development guide" : str)] |});
    (("inurl:" : str),
     {| description := "Search for pages with specific words in the URL";
        type := "keyword";
        placeholder := "tutorial";
        examples := [("inurl:tutorial python" : str); ("inurl:blog machine learning" : str)] |});
    (("allinurl:" : str),
     {| description := "Search for pages with all specified words in the URL";
        type := "keyword";
        placeholder := "python tutorial";
        examples := [("allinurl:python tutorial" : str); ("allinurl:web development" : str)] |});
    (("intext:" : str),
     {| description := "Search for pages with specific words in the body text";
        type := "keyword";
        placeholder := "machine learning";
        examples := [("intext:machine learning" : str); (("intext:" : str) ++ q ++ "data science" ++ q)] |});
    (("allintext:" : str),
     {| description := "Search for pages with all specified words in the body text";
        type := "keyword";
        placeholder := "python programming tutorial";
        examples := [("allintext:python programming" : str); ("allintext:web development guide" : str)] |});
    (("related:" : str),
     {| description := "Find websites related to a specific URL";
        type := "url";
        placeholder := "example.com";
        examples := [("related:stackoverflow.com" : str); ("related:github.com" : str)] |});
    (("cache:" : str),
     {| description := "View Google's cached version of a webpage";
        type := "url";
        placeholder := "example.com";
        examples := [("cache:example.com" : str); ("cache:stackoverflow.com/questions/123" : str)] |});
    (("link:" : str),
     {| description := "Find pages that link to a specific URL";
        type := "url";
        placeholder := "example.com";
        examples := [("link:stackoverflow.com" : str); ("link:github.com" : str)] |});
    (("define:" : str),
     {| description := "Get definitions for words or phrases";
        type := "keyword";
        placeholder := "artificial intelligence";
        examples := [("define:machine learning" : str); ("define:cryptocurrency" : str)] |});
    (("stocks:" : str),
     {| description := "Get stock information for a company";
        type := "keyword";
        placeholder := "AAPL";
        examples := [("stocks:AAPL" : str); ("stocks:GOOGL" : str)] |});
    (("weather:" : str),
     {| description := "Get weather information for a location";
        type := "keyword";
        placeholder := "New York";
        examples := [("weather:New York" : str); ("weather:London" : str)] |});
    (("map:" : str),
     {| description := "Show map results for a location";
        type := "keyword";
        placeholder := "restaurants New York";
        examples := [("map:restaurants New York" : str); ("map:hotels Paris" : str)] |});
    (("movie:" : str),
     {| description := "Search for movie information and showtimes";
        type := "keyword";
        placeholder := "Inception";
        examples := [("movie:Inception" : str); ("movie:Avengers" : str)] |});
    (("source:" : str),
     {| description := "Search Google News for articles from a specific source";
        type := "keyword";
        placeholder := "CNN";
        examples := [("source:CNN climate change" : str); ("source:BBC technology" : str)] |});
    (("before:" : str),
     {| description := "Search for content published before a specific date";
        type := "keyword";
        placeholder := "2020 machine learning";
        examples := [("before:2020-01-01 machine learning" : str); ("before:2019 cryptocurrency" : str)] |});
    (("after:" : str),
     {| description := "Search for content published after a specific date";
        type := "keyword";
        placeholder := "2020 AI trends";
        examples := [("after:2020-01-01 AI trends" : str); ("after:2021 web development" : str)] |});
    (("daterange:" : str),
     {| description := "Search for content within a specific date range";
        type := "keyword";
        placeholder := "machine learning trends";
        examples := [("daterange:2020-2021 machine learning" : str); ("daterange:2019-2020 startup" : str)] |});
    (("info:" : str),
     {| description := "Get information about a specific URL";
        type := "url";
        placeholder := "example.com";
        examples := [("info:stackoverflow.com" : str); ("info:github.com" : str)] |});
    (("phonebook:" : str),
     {| description := "Search for phone numbers (limited availability)";
        type := "keyword";
        placeholder := "John Smith New York";
        examples := [("phonebook:John Smith" : str); ("phonebook:business name city" : str)] |});
    (("bphonebook:" : str),
     {| description := "Search for business phone numbers";
        type := "keyword";
        placeholder := "pizza New York";
        examples := [("bphonebook:pizza New York" : str); ("bphonebook:dentist Chicago" : str)] |});
    (("author:" : str),
     {| description := "Search for articles by a specific author in Google Scholar";
        type := "keyword";
        placeholder := "John Smith";
        examples := [(("author:" : str) ++ q ++ "John Smith" ++ q ++ " machine learning"); ("author:Einstein physics" : str)] |});
    (("group:" : str),
     {| description := "Search within Google Groups";
        type := "keyword";
        placeholder := "python programming";
        examples := [("group:comp.lang.python" : str); ("group:alt.comp.programming" : str)] |});
    (("inanchor:" : str),
     {| description := "Search for pages with specific anchor text in links";
        type := "keyword";
        placeholder := "click here";
        examples := [(("inanchor:" : str) ++ q ++ "click here" ++ q); ("inanchor:download" : str)] |});
    (("allinanchor:" : str),
     {| description := "Search for pages with all specified words in anchor text";
        type := "keyword";
        placeholder := "download free software";
        examples := [("allinanchor:download free" : str); ("allinanchor:learn python" : str)] |});
    (("around(X):" : str),
     {| description := "Search for pages where two terms appear within X words of each other";
        type := "keyword";
        placeholder := "python AROUND(5) tutorial";
        examples := [("python AROUND(10) machine learning" : str); ("climate AROUND(3) change" : str)] |});
    (("loc:" : str),
     {| description := "Search for results from a specific location";
        type := "keyword";
        placeholder := (("restaurants loc:" : str) ++ q ++ "New York" ++ q);
        examples := [(("restaurants loc:" : str) ++ q ++ "New York" ++ q); (("events loc:" : str) ++ q ++ "San Francisco" ++ q)] |});
    (("location:" : str),
     {| description := "Search for news from a specific location";
        type := "keyword";
        placeholder := (("news location:" : str) ++ q ++ "California" ++ q);
        examples := [(("news location:" : str) ++ q ++ "California" ++ q); (("weather location:" : str) ++ q ++ "London" ++ q)] |});
    (("AROUND(X):" : str),
     {| description := "Find pages where two terms appear within X words of each other";
        type := "keyword";
        placeholder := "SEO AROUND(5) optimization";
        examples := [("digital AROUND(3) marketing" : str); ("content AROUND(10) strategy" : str)] |});
    ((q ++ q),
     {| description := "Exact phrase search - find pages with the exact phrase";
        type := "keyword";
        placeholder := (q ++ "digital marketing strategy" ++ q);
        examples := [(q ++ "content marketing" ++ q); (q ++ "SEO best practices" ++ q)] |});
    (("*" : str),
     {| description := "Wildcard operator - placeholder for unknown words";
        type := "keyword";
        placeholder := "best * for SEO";
        examples := [("best * for marketing" : str); ("how to * website traffic" : str)] |});
    (("OR" : str),
     {| description := "Search for pages containing either term";
        type := "keyword";
        placeholder := "SEO OR SEM";
        examples := [("marketing OR advertising" : str); ("python OR javascript" : str)] |});
    (("-" : str),
     {| description := "Exclude terms from search results";
        type := "keyword";
        placeholder := "digital marketing -ads";
        examples := [("python tutorials -paid" : str); ("SEO guide -2019" : str)] |});
    (("+" : str),
     {| description := "Include specific terms in search results";
        type := "keyword";
        placeholder := "+SEO +optimization";
        examples := [("+digital +marketing tips" : str); ("+content +strategy" : str)] |});
    (("~" : str),
     {| description := "Search for synonyms and related terms";
        type := "keyword";
        placeholder := "~car information";
        examples := [("~digital marketing" : str); ("~website optimization" : str)] |});
    ((".." : str),
     {| description := "Search within number ranges";
        type := "keyword";
        placeholder := "smartphones $200..$500";
        examples := [("laptops $500..$1000" : str); ("camera 2020..2023" : str)] |});
    (("imagesize:" : str),
     {| description := "Find images of specific dimensions";
        type := "keyword";
        placeholder := "imagesize:1920x1080";
        examples := [("imagesize:800x600 wallpaper" : str); ("imagesize:1024x768 screenshot" : str)] |});
    (("safesearch:" : str),
     {| description := "Control safe search filtering";
        type := "keyword";
        placeholder := "safesearch:off";
        examples := [("safesearch:on family content" : str); ("safesearch:off research" : str)] |});
    (("blogurl:" : str),
     {| description := "Search within blog URLs";
        type := "url";
        placeholder := "blogurl:medium.com";
        examples := [("blogurl:wordpress.com SEO" : str); ("blogurl:blogger.com marketing" : str)] |});
    (("haschange:" : str),
     {| description := "Find pages that have changed recently";
        type := "keyword";
        placeholder := "haschange:speed";
        examples := [("haschange:update website" : str); ("haschange:new product launch" : str)] |});
    (("inposttitle:" : str),
     {| description := "Search within blog post titles";
        type := "keyword";
        placeholder := "inposttitle:SEO tips";
        examples := [("inposttitle:marketing strategy" : str); ("inposttitle:web development" : str)] |});
    (("inpostauthor:" : str),
     {| description := "Search by blog post author";
        type := "keyword";
        placeholder := (("inpostauthor:" : str) ++ q ++ "John Smith" ++ q);
        examples := [(("inpostauthor:" : str) ++ q ++ "Neil Patel" ++ q); (("inpostauthor:" : str) ++ q ++ "Rand Fishkin" ++ q)] |});
    (("allintitle:" : str),
     {| description := "All specified words must appear in title";
        type := "keyword";
        placeholder := "allintitle:SEO guide 2024";
        examples := [("allintitle:digital marketing strategy" : str); ("allintitle:web development tutorial" : str)] |});
    (("id:" : str),
     {| description := "Search for specific page or post ID";
        type := "keyword";
        placeholder := "id:12345";
        examples := [("id:wordpress-123" : str); ("id:blog-post-456" : str)] |})
  ].

(** The entry a literal gives a key, said on the list itself: the last
    pair written with that key. *)
Fixpoint assoc_last {V : Type} (k : str) (l : list (str * V)) : option V :=
  match l with
  | [] => None
  | (k', v) :: l' =>
      match assoc_last k l' with
      | Some v' => Some v'
      | None => if str_eqb k k' then Some v else None
      end
  end.

Definition SEARCH_OPERATORS : gmap str operator_info :=
  dict_literal SEARCH_OPERATORS_literal.

(** The default of [SEARCH_OPERATORS.get] in [get_operator_info]. *)
Definition unknown_operator : operator_info :=
  {| description := "Unknown operator";
     type := "keyword";
     placeholder := "search term";
     examples := [] |}.

(** [d.get(k, dflt)] *)
Definition dict_get {V : Type} (d : gmap str V) (k : str) (dflt : V) : V :=
  match d !! k with
  | Some v => v
  | None => dflt
  end.

Definition get_operator_info (operator_name : str) : operator_info :=
  dict_get SEARCH_OPERATORS operator_name unknown_operator.

(** ** [utils.py]: the query builder *)


(** The optional dictionary [additional_params]; the callers store strings
    in it. *)
Abbreviation params := (option (gmap str str)).

(** [additional_params and 'date' in additional_params], together with the
    value [additional_params['date']] read when the test holds.  [None] and
    the empty dictionary are both false in a condition. *)
Definition date_param (additional_params : params) : option str :=
  match additional_params with
  | Some d => if bool_decide (d = ∅) then None else d !! ("date" : str)
  | None => None
  end.

(** The operators of the first three rules, and the operators that take a
    URL and are never quoted. *)
Definition earlier_rule_operators : list str :=
  ["before:" : str; "after:" : str; "daterange:" : str; "around(X):" : str].
Definition url_operators : list str :=
  ["site:" : str; "related:" : str; "cache:" : str; "link:" : str;
   "info:" : str].

(** The local variable [query] of [build_search_url] when the function
    reaches the encoding step. *)
Definition build_query (operator search_term : str)
    (additional_params : params) : str :=
  let search_term := strip search_term in
  if str_in operator ["before:" : str; "after:" : str] then
    match date_param additional_params with
    | Some date => operator ++ date ++ " " ++ search_term
    | None => operator ++ "2020-01-01 " ++ search_term
    end
  else if str_eqb operator "daterange:" then
    match date_param additional_params with
    | Some date =>
        let year := take 4 date in
        "after:" ++ year ++ "-01-01 before:" ++ year ++ "-12-31 " ++ search_term
    | None => "after:2020-01-01 before:2021-12-31 " ++ search_term
    end
  else if str_eqb operator "around(X):" then
    if negb (contains "AROUND(" (upper search_term)) then
      let parts := split_ws search_term in
      match parts with
      | first :: ((_ :: _) as rest) => first ++ " AROUND(5) " ++ join " " rest
      | _ => search_term ++ " AROUND(5) related"
      end
    else search_term
  else if endswith operator ":" then
    if str_in operator url_operators
    then operator ++ search_term
    else if contains " " search_term
            && negb (startswith search_term q && endswith search_term q)
         then operator ++ q ++ search_term ++ q
         else operator ++ search_term
  else operator ++ " " ++ search_term.

Definition build_search_url (operator search_term : str)
    (additional_params : params) : str :=
  let query := build_query operator search_term additional_params in
  let encoded_query := Urllib.quote_plus query in
  "https://www.google.com/search?q=" ++ encoded_query ++ "&num=100".


(** ** [utils.py]: the validators *)

(** [[a-zA-Z0-9]] and [[a-zA-Z0-9\-]] *)
Definition alnum_class : Re.regex := Re.Class is_alnum.
Definition alnum_hyphen_class : Re.regex :=
  Re.Class (fun c => is_alnum c || ch_eqb c "-").
Definition dot_class : Re.regex := Re.Class (fun c => ch_eqb c ".").

(** [[a-zA-Z0-9]([a-zA-Z0-9\-]{0,61}[a-zA-Z0-9])?] *)
Definition label_pattern : Re.regex :=
  Re.Cat alnum_class
    (Re.opt (Re.Cat (Re.upto 61 alnum_hyphen_class) alnum_class)).

(** The body of [domain_pattern], between [^] and [$]. *)
Definition domain_pattern : Re.regex :=
  Re.Cat label_pattern (Re.Star (Re.Cat dot_class label_pattern)).

(** The domain grammar as the specification words it: labels separated by
    dots, each of 1 to 63 letters, digits and hyphens, with no hyphen at
    either end. *)
Definition label_char (c : ascii) : bool := is_alnum c || ch_eqb c "-".

Definition label_ok (l : str) : bool :=
  (1 <=? length l) && (length l <=? 63) && forallb label_char l
  && match head l with Some c => is_alnum c | None => false end
  && match last l with Some c => is_alnum c | None => false end.

Definition domain_ok (s : str) : bool := forallb label_ok (split_on "." s).

(** The part of a string the grammar is applied to, as the specification
    words it: an [http://] or [https://] prefix is dropped, and so is
    everything from the first [/] on. *)
Definition drop_scheme (s : str) : str :=
  match strip_prefix "http://" s with
  | Some rest => rest
  | None =>
      match strip_prefix "https://" s with
      | Some rest => rest
      | None => s
      end
  end.

Fixpoint before_slash (s : str) : str :=
  match s with
  | [] => []
  | c :: s' => if ch_eqb c "/" then [] else c :: before_slash s'
  end.

Definition remainder_as_stated (s : str) : str := before_slash (drop_scheme s).

(** The same after white space is stripped from both ends, which is what
    the code does first. *)
Definition remainder (s : str) : str := remainder_as_stated (strip s).

(** [None] stands for an exception: both indexings below can fail on a list
    that is too short. *)
Definition validate_url (url : str) : option bool :=
  if negb (truthy url) then Some false
  else
    let url := strip url in
    url ← (if startswith url "http://" || startswith url "https://"
           then split_once "://" url !! 1
           else Some url);
    url ← split_on "/" url !! 0;
    Some (Re.match_anchored domain_pattern url && (length url <=? 253)).

Definition validate_keyword (keyword : str) : bool :=
  if negb (truthy keyword) then false
  else
    let keyword := strip keyword in
    (0 <? length keyword) && (length keyword <=? 500).

(** ** [utils.py]: batch validation *)

Definition harmful_chars : list ascii :=
  ["<"%char; ">"%char; "&"%char; dquote; squote].

Definition clean_search_term (search_term : str) : str :=
  if negb (truthy search_term) then []
  else
    let search_term := join " " (split_ws search_term) in
    let search_term :=
      foldl (fun s c => remove_char c s) search_term harmful_chars in
    strip search_term.

(** [is_valid, cleaned_queries, error_message] *)
Definition batch_result : Type := bool * list str * str.

Definition validate_batch_input (batch_input : str) : batch_result :=
  if negb (truthy batch_input) || negb (truthy (strip batch_input))
  then (false, [], "Batch input cannot be empty" : str)
  else
    let lines :=
      map strip
        (List.filter (fun line => truthy (strip line))
           (split_on newline batch_input)) in
    if negb (0 <? length lines)
    then (false, [], "No valid queries found" : str)
    else if 50 <? length lines
    then (false, [], "Maximum 50 queries allowed in batch mode" : str)
    else
      let cleaned_queries :=
        foldl
          (fun acc line =>
             let cleaned := clean_search_term line in
             if truthy cleaned then acc ++ [cleaned] else acc)
          [] lines in
      if negb (0 <? length cleaned_queries)
      then (false, [], "No valid queries after cleaning" : str)
      else (true, cleaned_queries, []).

(** The lines of a batch as the specification words them: split at line
    ends, trim each line, drop the empty ones. *)
Definition trimmed_lines (batch_input : str) : list str :=
  List.filter truthy (map strip (split_on newline batch_input)).

(** ** [utils.py]: the history file *)

Definition HISTORY_FILE : str := "search_history.json".

(** [l[-n:]] *)
Definition slice_last {A : Type} (n : nat) (l : list A) : list A :=
  drop (length l - n) l.

(** The part of the world the persistence functions touch: the files by
    path, whether opening a file raises [IOError], and what was printed. *)
Record world : Type := {
  files : gmap str str;
  io_error : bool;
  stdout : list str
}.

Definition print (msg : str) (w : world) : world :=
  {| files := files w; io_error := io_error w; stdout := stdout w ++ [msg] |}.

Definition write_file (path text : str) (w : world) : world :=
  {| files := <[path := text]> (files w);
     io_error := io_error w;
     stdout := stdout w |}.

Section Persistence.

(** The entries and the JSON library: [json_dump] is the text
    [json.dump(history, f, indent=2, ensure_ascii=False)] writes, and
    [json_load] is [json.load], [None] standing for [JSONDecodeError]. *)
Context {entry : Type}.
Variable json_dump : list entry -> str.
Variable json_load : str -> option (list entry).

Definition load_search_history (w : world) : list entry * world :=
  match files w !! HISTORY_FILE with
  | Some text =>
      if io_error w
      then ([], print "Error loading search history" w)
      else match json_load text with
           | Some history => (history, w)
           | None => ([], print "Error loading search history" w)
           end
  | None => ([], w)
  end.

Definition save_search_history (history : list entry) (w : world) : world :=
  let history :=
    if 1000 <? length history then slice_last 1000 history else history in
  if io_error w
  then print "Error saving search history" w
  else write_file HISTORY_FILE (json_dump history) w.

End Persistence.


(** ** [utils.py]: the favorites file *)

Definition FAVORITES_FILE : str := "favorites.json".

Section Favorites.

Context {entry : Type}.
Variable json_dump : list entry -> str.
Variable json_load : str -> option (list entry).

Definition load_favorites (w : world) : list entry * world :=
  match files w !! FAVORITES_FILE with
  | Some text =>
      if io_error w
      then ([], print "Error loading favorites" w)
      else match json_load text with
           | Some favorites => (favorites, w)
           | None => ([], print "Error loading favorites" w)
           end
  | None => ([], w)
  end.

Definition save_favorites (favorites : list entry) (w : world) : world :=
  if io_error w
  then print "Error saving favorites" w
  else write_file FAVORITES_FILE (json_dump favorites) w.

End Favorites.

(** ** [utils.py]: display and suggestions *)

Definition format_search_query_for_display (operator search_term : str) : str :=
  if endswith operator ":" then operator ++ search_term
  else operator ++ " " ++ search_term.

Definition suggestions_literal : list (str * list str) :=
  [ ("site:" : str,
     ["reddit.com" : str; "stackoverflow.com" : str; "github.com" : str;
      "medium.com" : str]);
    ("filetype:" : str,
     ["pdf" : str; "doc" : str; "ppt" : str; "xls" : str; "txt" : str]);
    ("intitle:" : str,
     ["tutorial" : str; "guide" : str; "how to" : str; "tips" : str]);
    ("inurl:" : str,
     ["blog" : str; "tutorial" : str; "guide" : str; "documentation" : str]);
    ("related:" : str,
     ["google.com" : str; "facebook.com" : str; "twitter.com" : str;
      "linkedin.com" : str]);
    ("define:" : str,
     ["artificial intelligence" : str; "machine learning" : str;
      "blockchain" : str; "cryptocurrency" : str]);
    ("stocks:" : str,
     ["AAPL" : str; "GOOGL" : str; "MSFT" : str; "AMZN" : str; "TSLA" : str]);
    ("weather:" : str,
     ["New York" : str; "London" : str; "Tokyo" : str; "Sydney" : str]);
    ("movie:" : str,
     ["latest movies" : str; "action movies" : str; "comedy movies" : str;
      "sci-fi movies" : str]) ].

Definition get_search_suggestions (operator : str) : list str :=
  dict_get (dict_literal suggestions_literal) operator [].

(** ** [search_operators.py]: operators by type *)

(** The dictionary comprehension keeps the entries whose [type] is the one
    asked for. *)
Definition get_operators_by_type (operator_type : str)
    : gmap str operator_info :=
  filter (fun kv => type kv.2 = operator_type) SEARCH_OPERATORS.

(** ** [app.py]: the handlers behind the buttons

    The session state and the branches that run when a button is pressed.
    What a handler shows on the page is left out; what it decides, what it
    stores in the session and what it writes to the files is kept.  Each
    handler is the body of the branch its button guards, run once; on which
    reruns of the script Streamlit reports a button as pressed, for a button
    nested under another one in particular, is the framework's matter and
    is not modelled.  The
    clock and the widgets are parameters: [now] is what
    [datetime.datetime.now().isoformat()] returns, [date_input] is the date
    of the date widget as [strftime("%Y-%m-%d")] writes it. *)

Module App.

(** The dictionary stored in the history and in the favorites.  The quick
    search sets [category] and leaves [batch] out; the batch run sets
    [batch] and leaves [category] out. *)
Record history_entry : Type := {
  timestamp : str;
  operator : str;
  query : str;
  url : str;
  category : option str;
  batch : option bool
}.

#[global] Instance history_entry_eq_dec : EqDecision history_entry.
Proof. solve_decision. Defined.

(** The dictionary stored in the batch queue, with its keys [operator],
    [query] and [timestamp]. *)
Record batch_query : Type := {
  bq_operator : str;
  bq_query : str;
  bq_timestamp : str
}.

(** [st.session_state] *)
Record session : Type := {
  search_history : list history_entry;
  favorites : list history_entry;
  batch_queries : list batch_query
}.

Definition with_history (history : list history_entry) (st : session)
    : session :=
  {| search_history := history;
     favorites := favorites st;
     batch_queries := batch_queries st |}.


Definition with_queue (queue : list batch_query) (st : session) : session :=
  {| search_history := search_history st;
     favorites := favorites st;
     batch_queries := queue |}.

(** What the quick search did. *)
Inductive search_result : Type :=
| NotSubmitted
| InvalidUrl
| InvalidKeyword
| Opened (search_url : str).

(** What the button [Add to Queue] did. *)
Inductive queue_result : Type :=
| NothingEntered
| TooMany
| Added (count : nat).

(** [additional_params] of the quick search: the chosen date for the three
    date operators, the empty dictionary otherwise. *)
Definition quick_search_params (selected_operator date_input : str)
    : gmap str str :=
  if str_in selected_operator
       ["before:" : str; "after:" : str; "daterange:" : str]
  then <[("date" : str) := date_input]> ∅
  else ∅.

Section Handlers.

Variable json_dump : list history_entry -> str.

(** The quick search, from the operator information to the saved history.
    [None] stands for an exception of [validate_url]. *)
Definition quick_search (now selected_category selected_operator
    search_input date_input : str) (search_button : bool)
    (st : session) (w : world) : option (search_result * session * world) :=
  let operator_info := get_operator_info selected_operator in
  let additional_params := quick_search_params selected_operator date_input in
  if search_button && truthy search_input then
    url_rejected ←
      (if str_eqb (type operator_info) "url"
       then negb <$> validate_url search_input
       else Some false);
    Some
      (if url_rejected : bool then (InvalidUrl, st, w)
       else if str_eqb (type operator_info) "keyword"
               && negb (validate_keyword search_input)
       then (InvalidKeyword, st, w)
       else
         let search_url :=
           build_search_url selected_operator search_input
             (Some additional_params) in
         let search_entry :=
           {| timestamp := now;
              operator := selected_operator;
              query := search_input;
              url := search_url;
              category := Some selected_category;
              batch := None |} in
         let history := search_history st ++ [search_entry] in
         (Opened search_url, with_history history st,
          save_search_history json_dump history w))
  else Some (NotSubmitted, st, w).

(** The button [Add to Queue]; [now i] is the clock at line [i]. *)
Definition add_to_queue (now : nat -> str) (batch_operator batch_input : str)
    (st : session) : queue_result * session :=
  if truthy batch_input then
    let lines :=
      map strip
        (List.filter (fun line => truthy (strip line))
           (split_on newline batch_input)) in
    if 50 <? length lines then (TooMany, st)
    else
      let queue :=
        foldl
          (fun queue il =>
             queue ++ [ {| bq_operator := batch_operator;
                           bq_query := il.2;
                           bq_timestamp := now il.1 |} ])
          (batch_queries st) (imap pair lines) in
      (Added (length lines), with_queue queue st)
  else (NothingEntered, st).

(** The button [Execute All Searches], shown when the queue is not empty:
    the URLs to open, in order, and the history with one entry more for each
    of them, saved once at the end. *)
Definition execute_batch (now : nat -> str) (st : session) (w : world)
    : list str * session * world :=
  match batch_queries st with
  | [] => ([], st, w)
  | _ =>
      let '(search_urls, history) :=
        foldl
          (fun acc iq =>
             let search_url :=
               build_search_url (bq_operator iq.2) (bq_query iq.2) None in
             (acc.1 ++ [search_url],
              acc.2 ++ [ {| timestamp := now iq.1;
                            operator := bq_operator iq.2;
                            query := bq_query iq.2;
                            url := search_url;
                            category := None;
                            batch := Some true |} ]))
          ([], search_history st) (imap pair (batch_queries st)) in
      (search_urls, with_history history st,
       save_search_history json_dump history w)
  end.





End Handlers.

End App.

(** * Properties *)

(** ** Characters and string primitives *)

Section StringFacts.

Implicit Types (s t p w : str) (c : ascii).

Lemma ch_eqb_eq c1 c2 : ch_eqb c1 c2 = true <-> c1 = c2.
Proof. unfold ch_eqb. apply Ascii.eqb_eq. Qed.

Lemma ch_eqb_refl c : ch_eqb c c = true.
Proof. by apply ch_eqb_eq. Qed.

Lemma ch_eqb_neq c1 c2 : ch_eqb c1 c2 = false <-> c1 <> c2.
Proof. unfold ch_eqb. apply Ascii.eqb_neq. Qed.

Lemma str_eqb_eq s t : str_eqb s t = true <-> s = t.
Proof.
  revert t. induction s as [|x s IH]; intros [|y t]; simpl; try easy.
  rewrite andb_true_iff, ch_eqb_eq, IH. split.
  - intros [-> ->]. reflexivity.
  - intros [= -> ->]. done.
Qed.

Lemma str_eqb_neq s t : str_eqb s t = false <-> s <> t.
Proof.
  rewrite <- str_eqb_eq. destruct (str_eqb s t); split; congruence.
Qed.

Lemma str_in_In s (l : list str) : str_in s l = true <-> In s l.
Proof.
  unfold str_in. rewrite existsb_exists. split.
  - intros (x & Hx & Heq). apply str_eqb_eq in Heq. by subst.
  - intros H. exists s. split; [done | by apply str_eqb_eq].
Qed.

Lemma str_in_not_In s (l : list str) : str_in s l = false <-> ~ In s l.
Proof.
  rewrite <- str_in_In. destruct (str_in s l); split; congruence.
Qed.

(** *** [strip] *)

Lemma lstrip_nonspace c s : isspace c = false -> lstrip (c :: s) = c :: s.
Proof. intros H. simpl. by rewrite H. Qed.

Lemma lstrip_idemp s : lstrip (lstrip s) = lstrip s.
Proof.
  induction s as [|c s IH]; [done|].
  simpl. destruct (isspace c) eqn:E; [done|]. simpl. by rewrite E.
Qed.

Lemma lstrip_snoc_nonspace s c :
  isspace c = false -> lstrip (s ++ [c]) = lstrip s ++ [c].
Proof.
  intros H. induction s as [|x s IH]; simpl.
  - by rewrite H.
  - destruct (isspace x); [exact IH | done].
Qed.

Lemma rstrip_cons_nonspace c s :
  isspace c = false -> rstrip (c :: s) = c :: rstrip s.
Proof.
  intros H. unfold rstrip. rewrite reverse_cons.
  rewrite lstrip_snoc_nonspace by done.
  by rewrite reverse_app.
Qed.

Lemma rstrip_idemp s : rstrip (rstrip s) = rstrip s.
Proof. unfold rstrip. by rewrite reverse_involutive, lstrip_idemp. Qed.

Lemma lstrip_cases s :
  lstrip s = [] \/ exists c t, lstrip s = c :: t /\ isspace c = false.
Proof.
  induction s as [|c s IH]; [by left|].
  simpl. destruct (isspace c) eqn:E; [exact IH|].
  right. by exists c, s.
Qed.

Lemma lstrip_rstrip_lstrip s : lstrip (rstrip (lstrip s)) = rstrip (lstrip s).
Proof.
  destruct (lstrip_cases s) as [-> | (c & t & -> & Hc)]; [done|].
  rewrite rstrip_cons_nonspace by done. by apply lstrip_nonspace.
Qed.

Lemma strip_idemp s : strip (strip s) = strip s.
Proof.
  unfold strip. by rewrite lstrip_rstrip_lstrip, rstrip_idemp.
Qed.

(** What [strip] removes is white space at the two ends, and what it
    returns has none there. *)

Lemma lstrip_decompose s :
  exists pre, s = pre ++ lstrip s /\ Forall (fun c => isspace c = true) pre.
Proof.
  induction s as [|c s (pre & E & H)]; [by exists []|].
  simpl. destruct (isspace c) eqn:Ec.
  - exists (c :: pre). split; [simpl; congruence | by constructor].
  - by exists [].
Qed.

Lemma rstrip_decompose s :
  exists post, s = rstrip s ++ post /\ Forall (fun c => isspace c = true) post.
Proof.
  unfold rstrip. destruct (lstrip_decompose (reverse s)) as (pre & E & H).
  exists (reverse pre). split.
  - by rewrite <- reverse_app, <- E, reverse_involutive.
  - by apply Forall_reverse.
Qed.

Lemma strip_decompose s :
  exists pre post,
    s = pre ++ strip s ++ post
    /\ Forall (fun c => isspace c = true) pre
    /\ Forall (fun c => isspace c = true) post.
Proof.
  destruct (lstrip_decompose s) as (pre & E1 & H1).
  destruct (rstrip_decompose (lstrip s)) as (post & E2 & H2).
  exists pre, post. unfold strip. split; [congruence | done].
Qed.

Lemma strip_head s c : head (strip s) = Some c -> isspace c = false.
Proof.
  unfold strip.
  destruct (lstrip_cases s) as [-> | (x & t & -> & Hx)]; [done|].
  rewrite rstrip_cons_nonspace by done. simpl. congruence.
Qed.

Lemma strip_last s c : last (strip s) = Some c -> isspace c = false.
Proof.
  unfold strip, rstrip. rewrite last_reverse.
  destruct (lstrip_cases (reverse (lstrip s))) as [-> | (x & t & -> & Hx)];
    [done|].
  simpl. congruence.
Qed.

End StringFacts.

(** ** The query builder *)

(** C9.  [build_search_url] gives the same URL for a term and for the term
    stripped of leading and trailing white space, for every operator, term
    and extra mapping: the term is stripped before any formatting rule
    looks at it. *)
Theorem build_search_url_strip_invariant
    (operator term : str) (extra : params) :
  build_search_url operator term extra
  = build_search_url operator (strip term) extra.
Proof.
  unfold build_search_url, build_query.
  rewrite strip_idemp. reflexivity.
Qed.

(** *** Words *)

Section Words.

Implicit Types (s t w cur : str) (ws : list str).

Lemma split_ws_from_app cur w s :
  Forall (fun c => isspace c = false) w ->
  split_ws_from cur (w ++ s) = split_ws_from (cur ++ w) s.
Proof.
  intros Hw. revert cur.
  induction Hw as [|c w Hc _ IH]; intros cur; simpl.
  - by rewrite app_nil_r.
  - rewrite Hc, IH. by rewrite <- app_assoc.
Qed.

Lemma split_ws_word_end w : is_word w -> split_ws w = [w].
Proof.
  intros [Hne Hw]. unfold split_ws.
  rewrite <- (app_nil_r w) at 1.
  rewrite split_ws_from_app by done. simpl.
  by destruct w.
Qed.

Lemma split_ws_word_next w c s :
  is_word w -> isspace c = true ->
  split_ws (w ++ c :: s) = w :: split_ws s.
Proof.
  intros [Hne Hw] Hc. unfold split_ws.
  rewrite split_ws_from_app by done. simpl. rewrite Hc.
  by destruct w.
Qed.

(** [split_ws] computes the words of a string... *)
Lemma words_of_split_ws s ws : words_of s ws -> split_ws s = ws.
Proof.
  induction 1 as [|c s ws Hc _ IH|w Hw|w c s ws Hw Hc _ IH].
  - reflexivity.
  - unfold split_ws in *. simpl. by rewrite Hc.
  - by apply split_ws_word_end.
  - rewrite split_ws_word_next by done. by rewrite IH.
Qed.

Lemma words_of_split_ws_from cur s :
  Forall (fun c => isspace c = false) cur ->
  words_of (cur ++ s) (split_ws_from cur s).
Proof.
  revert cur. induction s as [|c s IH]; intros cur Hcur; simpl.
  - rewrite app_nil_r. destruct cur as [|x cur]; [constructor|].
    apply words_last. by split.
  - destruct (isspace c) eqn:Hc.
    + destruct cur as [|x cur].
      * apply words_skip; [done|]. by apply (IH []).
      * apply words_next; [by split | done | by apply (IH [])].
    + replace (cur ++ c :: s) with ((cur ++ [c]) ++ s)
        by (by rewrite <- app_assoc).
      apply IH. apply Forall_app. split; [done|]. by constructor.
Qed.

(** ... and every string has words. *)
Lemma split_ws_words_of s : words_of s (split_ws s).
Proof. by apply (words_of_split_ws_from []). Qed.

Lemma words_of_iff s ws : words_of s ws <-> split_ws s = ws.
Proof.
  split; [apply words_of_split_ws|].
  intros <-. apply split_ws_words_of.
Qed.

End Words.

(** *** One-character tests *)

Section CharTests.

Implicit Types (s t : str) (c : ascii).

Lemma startswith_char s c : startswith s [c] = true <-> head s = Some c.
Proof.
  unfold startswith. destruct s as [|x s]; simpl; [easy|].
  destruct (ch_eqb c x) eqn:E.
  - apply ch_eqb_eq in E. subst. easy.
  - apply ch_eqb_neq in E. split; [easy|]. intros [= ->]. done.
Qed.

Lemma endswith_char s c : endswith s [c] = true <-> last s = Some c.
Proof.
  unfold endswith. change (reverse [c]) with [c].
  rewrite startswith_char. by rewrite head_reverse.
Qed.

Lemma contains_char s c : contains [c] s = true <-> c ∈ s.
Proof.
  induction s as [|x s IH].
  - simpl. split; [easy|]. intros H. by apply elem_of_nil in H.
  - cbn [contains]. rewrite orb_true_iff, IH, startswith_char.
    rewrite elem_of_cons. simpl. split.
    + intros [[= ->] | H]; auto.
    + intros [-> | H]; auto.
Qed.

Lemma contains_char_false s c : contains [c] s = false <-> c ∉ s.
Proof.
  rewrite <- contains_char. destruct (contains [c] s); split; congruence.
Qed.

End CharTests.

(** *** The extra mapping *)

Lemma date_param_present (d : gmap str str) (date : str) :
  d !! ("date" : str) = Some date -> date_param (Some d) = Some date.
Proof.
  intros H. unfold date_param. case_bool_decide as E; [|done].
  subst d. by rewrite lookup_empty in H.
Qed.

Lemma date_param_absent (extra : params) :
  (forall d, extra = Some d -> d !! ("date" : str) = None) ->
  date_param extra = None.
Proof.
  intros H. unfold date_param. destruct extra as [d|]; [|done].
  case_bool_decide; [done|]. by apply H.
Qed.

(** ** Rule 3: the AROUND rewriting *)

(** The operator tests of [build_search_url] are exact comparisons. *)
Lemma around_token_exact (operator : str) :
  str_eqb operator "around(X):" = true <-> operator = ("around(X):" : str).
Proof. apply str_eqb_eq. Qed.

(** C1, as the code has it.  For the operator token [around(X):], compared
    exactly, and every term and extra mapping: with [t] the stripped term
    and [ws] its white-space separated words, a [t] that contains [AROUND(]
    in any letter case is the query unchanged; otherwise two or more words
    give [first AROUND(5) rest], the rest joined by single spaces, and
    fewer words give [t AROUND(5) related]. *)
Theorem around_rule (term : str) (extra : params) (ws : list str) :
  words_of (strip term) ws ->
  build_query "around(X):" term extra =
    if contains "AROUND(" (upper (strip term)) then strip term
    else match ws with
         | first :: ((_ :: _) as rest) =>
             first ++ " AROUND(5) " ++ join " " rest
         | _ => strip term ++ " AROUND(5) related"
         end.
Proof.
  intros Hws. apply words_of_split_ws in Hws. subst ws.
  unfold build_query.
  change (str_in "around(X):" ["before:" : str; "after:" : str]) with false.
  change (str_eqb "around(X):" "daterange:") with false.
  change (str_eqb "around(X):" "around(X):") with true.
  cbv iota.
  destruct (contains "AROUND(" (upper (strip term))); reflexivity.
Qed.

Lemma around_rule_witness :
  build_query "around(X):" "  climate   change now " None
  = ("climate AROUND(5) change now" : str)
  /\ build_query "around(X):" "python" (Some ∅)
     = ("python AROUND(5) related" : str)
  /\ build_query "around(X):" "a around(3) b" None = ("a around(3) b" : str).
Proof.
  split; [|split].
  - rewrite (around_rule _ _ ["climate" : str; "change" : str; "now" : str]).
    + reflexivity.
    + apply words_of_iff. reflexivity.
  - rewrite (around_rule _ _ ["python" : str]).
    + reflexivity.
    + apply words_of_iff. reflexivity.
  - rewrite (around_rule _ _ ["a" : str; "around(3)" : str; "b" : str]).
    + reflexivity.
    + apply words_of_iff. reflexivity.
Defined.

(** C1, as stated, fails: the catalog token [AROUND(X):] equals
    [around(X):] when letter case is ignored, yet it is formatted by the
    rule for keyword operators ending in a colon, not by the AROUND rule. *)
Lemma around_upper_token_counterexample :
  lower "AROUND(X):" = lower "around(X):"
  /\ build_query "AROUND(X):" "climate change" None
     = ("AROUND(X):" : str) ++ q ++ "climate change" ++ q
  /\ build_query "AROUND(X):" "climate change" None
     <> ("climate AROUND(5) change" : str).
Proof. split; [|split]; [reflexivity | reflexivity | discriminate]. Qed.

(** ** Rule 4: operators ending in a colon *)

(** C2, as the code has it.  For every operator token ending in [:] that
    no earlier rule handles, and every term and extra mapping, with [t] the
    term stripped of leading and trailing white space:
    a URL operator gives [operator t] unquoted; any other operator gives
    [operator "t"] exactly when [t] contains a space and does not both
    start and end with a double quote, and [operator t] otherwise. *)
Theorem colon_operator_rule (operator term : str) (extra : params) :
  last operator = Some ":"%char ->
  operator ∉ earlier_rule_operators ->
  let t := strip term in
  let quoted :=
    " "%char ∈ t /\ ~ (head t = Some dquote /\ last t = Some dquote) in
  (operator ∈ url_operators ->
     build_query operator term extra = operator ++ t)
  /\ (operator ∉ url_operators -> quoted ->
        build_query operator term extra = operator ++ q ++ t ++ q)
  /\ (operator ∉ url_operators -> ~ quoted ->
        build_query operator term extra = operator ++ t).
Proof.
  intros Hcolon Hearlier t quoted.
  assert (H1 : str_in operator ["before:" : str; "after:" : str] = false).
  { apply str_in_not_In. intros H. apply Hearlier.
    apply list_elem_of_In. unfold earlier_rule_operators.
    simpl in *. tauto. }
  assert (H2 : str_eqb operator "daterange:" = false).
  { apply str_eqb_neq. intros ->. apply Hearlier.
    apply list_elem_of_In. simpl. tauto. }
  assert (H3 : str_eqb operator "around(X):" = false).
  { apply str_eqb_neq. intros ->. apply Hearlier.
    apply list_elem_of_In. simpl. tauto. }
  assert (H4 : endswith operator ":" = true) by by apply endswith_char.
  unfold build_query. rewrite H1, H2, H3, H4. fold t.
  split; [|split].
  - intros Hin. apply list_elem_of_In, str_in_In in Hin. by rewrite Hin.
  - intros Hout [Hsp Hq].
    rewrite list_elem_of_In, <- str_in_not_In in Hout. rewrite Hout.
    apply contains_char in Hsp.
    change (contains " " t) with (contains [" "%char] t). rewrite Hsp.
    destruct (startswith t q) eqn:Es; [|done].
    destruct (endswith t q) eqn:Ee; [|done].
    exfalso. apply Hq. split; [by apply startswith_char | by apply endswith_char].
  - intros Hout Hnq.
    rewrite list_elem_of_In, <- str_in_not_In in Hout. rewrite Hout.
    change (contains " " t) with (contains [" "%char] t).
    destruct (contains [" "%char] t) eqn:Ec; [|done].
    destruct (startswith t q) eqn:Es; [|].
    + destruct (endswith t q) eqn:Ee; [done|].
      exfalso. apply Hnq. split; [by apply contains_char|].
      intros [_ Hl]. apply endswith_char in Hl. unfold q in Ee. congruence.
    + exfalso. apply Hnq. split; [by apply contains_char|].
      intros [Hh _]. apply startswith_char in Hh. unfold q in Es. congruence.
Qed.

Lemma colon_operator_rule_witness :
  build_query "site:" " example.com " None = ("site:example.com" : str)
  /\ build_query "intitle:" "data science" None
     = ("intitle:" : str) ++ q ++ "data science" ++ q
  /\ build_query "intitle:" (q ++ "data science" ++ q) None
     = ("intitle:" : str) ++ q ++ "data science" ++ q
  /\ build_query "filetype:" "pdf" None = ("filetype:pdf" : str).
Proof.
  assert (E : forall op : str, op ∉ earlier_rule_operators <->
                str_in op earlier_rule_operators = false).
  { intros op. by rewrite list_elem_of_In, str_in_not_In. }
  assert (U : forall op : str, op ∉ url_operators <->
                str_in op url_operators = false).
  { intros op. by rewrite list_elem_of_In, str_in_not_In. }
  split; [|split; [|split]].
  - destruct (colon_operator_rule "site:" " example.com " None)
      as (A & _ & _); [reflexivity | by apply E |].
    apply A. apply list_elem_of_In, str_in_In. reflexivity.
  - destruct (colon_operator_rule "intitle:" "data science" None)
      as (_ & B & _); [reflexivity | by apply E |].
    apply B; [by apply U|].
    split; [apply contains_char; reflexivity|]. intros [H _]. discriminate H.
  - destruct (colon_operator_rule "intitle:" (q ++ "data science" ++ q) None)
      as (_ & _ & C); [reflexivity | by apply E |].
    apply C; [by apply U|].
    intros [_ H]. apply H. split; reflexivity.
  - destruct (colon_operator_rule "filetype:" "pdf" None)
      as (_ & _ & C); [reflexivity | by apply E |].
    apply C; [by apply U|].
    intros [H _]. apply contains_char in H. discriminate H.
Defined.

(** C2, as stated, fails on a term with white space at an end: the query
    holds the stripped term, and whether it is quoted is decided on the
    stripped term. *)
Lemma colon_operator_untrimmed_counterexample :
  build_query "site:" " example.com" None = ("site:example.com" : str)
  /\ build_query "site:" " example.com" None
     <> ("site:" : str) ++ " example.com"
  /\ " "%char ∈ (" tutorial" : str)
  /\ ~ (head (" tutorial" : str) = Some dquote
        /\ last (" tutorial" : str) = Some dquote)
  /\ build_query "intitle:" " tutorial" None = ("intitle:tutorial" : str)
  /\ build_query "intitle:" " tutorial" None
     <> ("intitle:" : str) ++ q ++ " tutorial" ++ q.
Proof.
  repeat split; try reflexivity; try discriminate.
  - apply contains_char. reflexivity.
  - intros [H _]. discriminate H.
Qed.

(** ** Rule 2: the date range *)

(** C3, as the code has it.  For every term, with [t] the term stripped of
    leading and trailing white space: the operator
    [daterange:] gives [after:Y-01-01 before:Y-12-31 t], where [Y] is the
    first four characters of the date of the extra mapping when it has one,
    and [after:2020-01-01 before:2021-12-31 t] when there is no mapping or
    the mapping has no date; the date 2021-06-01 with the term AI gives the
    URL whose decoded query is [after:2021-01-01 before:2021-12-31 AI]. *)
Theorem daterange_rule (term : str) :
  (forall (d : gmap str str) (date : str),
      d !! ("date" : str) = Some date ->
      build_query "daterange:" term (Some d)
      = "after:" ++ take 4 date ++ "-01-01 before:" ++ take 4 date
        ++ "-12-31 " ++ strip term)
  /\ (forall extra : params,
        (forall d, extra = Some d -> d !! ("date" : str) = None) ->
        build_query "daterange:" term extra
        = "after:2020-01-01 before:2021-12-31 " ++ strip term)
  /\ Urllib.unquote_plus
       (Urllib.quote_plus
          (build_query "daterange:" "AI"
             (Some {[ ("date" : str) := ("2021-06-01" : str) ]})))
     = ("after:2021-01-01 before:2021-12-31 AI" : str)
  /\ build_search_url "daterange:" "AI"
       (Some {[ ("date" : str) := ("2021-06-01" : str) ]})
     = ("https://www.google.com/search?q=after%3A2021-01-01+before%3A2021-12-31+AI&num=100" : str).
Proof.
  split; [|split; [|split]].
  - intros d date Hd. unfold build_query.
    change (str_in "daterange:" ["before:" : str; "after:" : str]) with false.
    change (str_eqb "daterange:" "daterange:") with true. cbv iota.
    by rewrite (date_param_present d date Hd).
  - intros extra Hd. unfold build_query.
    change (str_in "daterange:" ["before:" : str; "after:" : str]) with false.
    change (str_eqb "daterange:" "daterange:") with true. cbv iota.
    by rewrite (date_param_absent extra Hd).
  - vm_compute. reflexivity.
  - vm_compute. reflexivity.
Qed.

Lemma daterange_rule_witness :
  build_query "daterange:" " AI "
    (Some {[ ("date" : str) := ("2021-06-01" : str) ]})
  = ("after:2021-01-01 before:2021-12-31 AI" : str)
  /\ build_query "daterange:" " AI " None
     = ("after:2020-01-01 before:2021-12-31 AI" : str)
  /\ build_query "daterange:" " AI "
       (Some {[ ("year" : str) := ("2021" : str) ]})
     = ("after:2020-01-01 before:2021-12-31 AI" : str).
Proof.
  split; [|split].
  - apply (proj1 (daterange_rule " AI ")
             {[ ("date" : str) := ("2021-06-01" : str) ]} "2021-06-01").
    reflexivity.
  - apply (proj1 (proj2 (daterange_rule " AI ")) None). intros d H. discriminate H.
  - apply (proj1 (proj2 (daterange_rule " AI "))
             (Some {[ ("year" : str) := ("2021" : str) ]})).
    intros d [= <-]. reflexivity.
Defined.

(** C3, as stated, fails on a term with white space at an end: the query
    ends in the stripped term. *)
Lemma daterange_untrimmed_counterexample :
  build_query "daterange:" " AI "
    (Some {[ ("date" : str) := ("2021-06-01" : str) ]})
  = ("after:2021-01-01 before:2021-12-31 AI" : str)
  /\ build_query "daterange:" " AI "
       (Some {[ ("date" : str) := ("2021-06-01" : str) ]})
     <> ("after:2021-01-01 before:2021-12-31 " : str) ++ " AI ".
Proof. split; [reflexivity | discriminate]. Qed.

(** ** URL encoding *)

Module UrllibFacts.

Import Urllib.

(** Case analysis over the 256 characters. *)
Ltac each_char c := destruct c as [[] [] [] [] [] [] [] []].

Lemma quote_byte_no_space (b : ascii) :
  b <> " "%char ->
  (if always_safe b || existsb (ch_eqb b) [] then [b] else percent_byte b)
  = form_encode_byte b.
Proof. each_char b; intros H; try reflexivity; by destruct H. Qed.

Lemma quote_byte_space_safe (b : ascii) :
  replace_char " " "+"
    (if always_safe b || existsb (ch_eqb b) (" " : str)
     then [b] else percent_byte b)
  = form_encode_byte b.
Proof. each_char b; reflexivity. Qed.

Lemma utf8_char_no_space (c : ascii) :
  c <> " "%char -> Forall (fun b => b <> " "%char) (utf8_char c).
Proof.
  each_char c; intros H; try (by destruct H);
    repeat constructor; discriminate.
Qed.

Lemma utf8_no_space (s : str) :
  " "%char ∉ s -> Forall (fun b => b <> " "%char) (utf8 s).
Proof.
  induction s as [|c s IH]; intros H; [constructor|].
  apply not_elem_of_cons in H as [Hc Hs].
  unfold utf8. simpl. apply Forall_app. split.
  - apply utf8_char_no_space. congruence.
  - by apply IH.
Qed.

Lemma replace_char_flat_map {A} a b (f : A -> str) (l : list A) :
  replace_char a b (flat_map f l)
  = flat_map (fun x => replace_char a b (f x)) l.
Proof.
  induction l as [|x l IH]; [done|].
  simpl. unfold replace_char in *. by rewrite map_app, IH.
Qed.

Lemma flat_map_Forall_ext {A B} (P : A -> Prop) (f g : A -> list B) l :
  Forall P l -> (forall x, P x -> f x = g x) -> flat_map f l = flat_map g l.
Proof.
  intros Hl Hfg. induction Hl as [|x l Hx _ IH]; [done|].
  simpl. by rewrite IH, Hfg.
Qed.

(** [quote_plus] is form-style percent-encoding. *)
Lemma quote_plus_form_encode (s : str) : quote_plus s = form_encode s.
Proof.
  unfold quote_plus, form_encode, quote.
  destruct (contains " " s) eqn:E; simpl negb; cbv iota.
  - rewrite replace_char_flat_map.
    apply flat_map_ext. intros b. apply quote_byte_space_safe.
  - apply (flat_map_Forall_ext (fun b => b <> " "%char)).
    + apply utf8_no_space. by apply contains_char_false.
    + intros b Hb. by apply quote_byte_no_space.
Qed.

Lemma form_encode_byte_chars (b : ascii) :
  forallb encoded_char (form_encode_byte b) = true.
Proof. each_char b; reflexivity. Qed.

Lemma form_encode_chars (s : str) :
  forallb encoded_char (form_encode s) = true.
Proof.
  unfold form_encode. induction (utf8 s) as [|b bs IH]; [done|].
  simpl. rewrite forallb_app, IH, form_encode_byte_chars. done.
Qed.

Lemma unquote_bytes_encode_byte (b : ascii) (r : str) :
  unquote_bytes (form_encode_byte b ++ r) = b :: unquote_bytes r.
Proof. each_char b; reflexivity. Qed.

Lemma utf8_decode_char (c : ascii) (r : str) :
  utf8_decode (utf8_char c ++ r) = c :: utf8_decode r.
Proof. each_char c; reflexivity. Qed.

(** Decoding an encoded query gives the query back. *)
Lemma unquote_plus_form_encode (s : str) : unquote_plus (form_encode s) = s.
Proof.
  unfold unquote_plus, form_encode.
  assert (H : forall bs, unquote_bytes (flat_map form_encode_byte bs) = bs).
  { induction bs as [|b bs IH]; [done|].
    simpl. by rewrite unquote_bytes_encode_byte, IH. }
  rewrite H. unfold utf8.
  induction s as [|c s IH]; [done|].
  simpl. by rewrite utf8_decode_char, IH.
Qed.

End UrllibFacts.

(** C4.  For every operator, term and extra mapping the URL is the fixed
    template [https://www.google.com/search?q=ENCODED&num=100], where
    [ENCODED] is the form-style percent-encoding of the query the formatting
    rules assemble: unreserved bytes kept, a space written [+], any other
    byte written [%XX].  [ENCODED] holds no other character than
    unreserved ones, [+] and [%], and decodes back to the query. *)
Theorem build_search_url_template (operator term : str) (extra : params) :
  let query := build_query operator term extra in
  build_search_url operator term extra
  = "https://www.google.com/search?q=" ++ Urllib.form_encode query
    ++ "&num=100"
  /\ forallb Urllib.encoded_char (Urllib.form_encode query) = true
  /\ Urllib.unquote_plus (Urllib.form_encode query) = query.
Proof.
  intros query. split; [|split].
  - unfold build_search_url. fold query.
    by rewrite UrllibFacts.quote_plus_form_encode.
  - apply UrllibFacts.form_encode_chars.
  - apply UrllibFacts.unquote_plus_form_encode.
Qed.

(** ** Regular expressions: the matcher is correct *)

Module ReFacts.

Import Re.

Lemma nullable_matches (r : regex) : nullable r = true <-> matches r [].
Proof.
  split.
  - induction r as [| |p|r1 IH1 r2 IH2|r1 IH1 r2 IH2|r IH]; simpl; intros H;
      try discriminate.
    + constructor.
    + apply andb_true_iff in H as [H1 H2].
      change (@nil ascii) with (@nil ascii ++ []).
      constructor; auto.
    + apply orb_true_iff in H as [H|H].
      * apply m_alt_l; auto.
      * apply m_alt_r; auto.
    + constructor.
  - intros H. remember [] as s eqn:Es.
    induction H as [|p c Hc|r1 r2 s1 s2 _ IH1 _ IH2|r1 r2 s _ IH
                    |r1 r2 s _ IH|r|r s1 s2 _ _ _ _]; simpl; try done.
    + apply app_eq_nil in Es as [-> ->]. by rewrite IH1, IH2.
    + by rewrite IH.
    + rewrite IH by done. apply orb_true_r.
Qed.

Lemma deriv_sound (c : ascii) (r : regex) (s : str) :
  matches (deriv c r) s -> matches r (c :: s).
Proof.
  revert s.
  induction r as [| |p|r1 IH1 r2 IH2|r1 IH1 r2 IH2|r IH]; simpl; intros s H.
  - inversion H.
  - inversion H.
  - destruct (p c) eqn:E; inversion H; subst. by constructor.
  - destruct (nullable r1) eqn:N.
    + inversion H as [| | | ? ? ? H1| ? ? ? H1 | |]; subst.
      * inversion H1; subst.
        change (c :: s1 ++ s2) with ((c :: s1) ++ s2).
        constructor; auto.
      * change (c :: s) with ([] ++ c :: s).
        constructor; [by apply nullable_matches | auto].
    + inversion H; subst.
      change (c :: s1 ++ s2) with ((c :: s1) ++ s2).
      constructor; auto.
  - inversion H; subst.
    + apply m_alt_l; auto.
    + apply m_alt_r; auto.
  - inversion H; subst.
    change (c :: s1 ++ s2) with ((c :: s1) ++ s2).
    constructor; auto.
Qed.

Lemma deriv_complete (c : ascii) (r : regex) (s : str) :
  matches r (c :: s) -> matches (deriv c r) s.
Proof.
  intros H. remember (c :: s) as cs eqn:E. revert s E.
  induction H as [|p x Hx|r1 r2 s1 s2 H1 IH1 H2 IH2|r1 r2 s0 _ IH
                  |r1 r2 s0 _ IH|r|r s1 s2 H1 IH1 H2 IH2];
    intros s E; simpl.
  - discriminate.
  - injection E as -> <-. rewrite Hx. constructor.
  - destruct s1 as [|y s1]; simpl in E.
    + subst s2. apply nullable_matches in H1. rewrite H1.
      apply m_alt_r. by apply IH2.
    + injection E as -> <-.
      assert (matches (Cat (deriv c r1) r2) (s1 ++ s2))
        by (constructor; auto).
      destruct (nullable r1); [by apply m_alt_l | done].
  - apply m_alt_l; auto.
  - apply m_alt_r; auto.
  - discriminate.
  - destruct s1 as [|y s1]; simpl in E.
    + by apply IH2.
    + injection E as -> <-. constructor; auto.
Qed.

Theorem accepts_matches (r : regex) (s : str) :
  accepts r s = true <-> matches r s.
Proof.
  revert r. induction s as [|c s IH]; intros r; simpl.
  - apply nullable_matches.
  - rewrite IH. split; [apply deriv_sound | apply deriv_complete].
Qed.

(** *** The shapes used by the domain pattern *)

Lemma matches_class (p : ascii -> bool) (s : str) :
  matches (Class p) s <-> exists c, s = [c] /\ p c = true.
Proof.
  split.
  - inversion 1; subst. eauto.
  - intros (c & -> & H). by constructor.
Qed.

Lemma matches_cat (r1 r2 : regex) (s : str) :
  matches (Cat r1 r2) s
  <-> exists s1 s2, s = s1 ++ s2 /\ matches r1 s1 /\ matches r2 s2.
Proof.
  split.
  - inversion 1; subst. eauto.
  - intros (s1 & s2 & -> & H1 & H2). by constructor.
Qed.

Lemma matches_alt (r1 r2 : regex) (s : str) :
  matches (Alt r1 r2) s <-> matches r1 s \/ matches r2 s.
Proof.
  split.
  - inversion 1; subst; auto.
  - intros [H|H]; [by apply m_alt_l | by apply m_alt_r].
Qed.

Lemma matches_eps (s : str) : matches Eps s <-> s = [].
Proof.
  split.
  - by inversion 1.
  - intros ->. constructor.
Qed.

Lemma matches_upto_class (n : nat) (p : ascii -> bool) (s : str) :
  matches (upto n (Class p)) s
  <-> length s <= n /\ Forall (fun c => p c = true) s.
Proof.
  revert s. induction n as [|n IH]; intros s; simpl.
  - rewrite matches_eps. split.
    + intros ->. split; [done | constructor].
    + intros [H _]. destruct s; [done | simpl in H; lia].
  - rewrite matches_alt, matches_eps, matches_cat. split.
    + intros [-> | (s1 & s2 & -> & H1 & H2)].
      * split; [simpl; lia | constructor].
      * apply matches_class in H1 as (c & -> & Hc).
        apply IH in H2 as [Hlen Hall]. simpl. split; [lia|].
        by constructor.
    + intros [Hlen Hall]. destruct s as [|c s]; [by left|]. right.
      exists [c], s. inversion Hall; subst. simpl in Hlen.
      split; [done|]. split; [by apply matches_class; eauto|].
      apply IH. split; [lia | done].
Qed.

End ReFacts.

(** ** The domain grammar *)

Section DomainGrammar.

Import Re ReFacts.

Implicit Types (s l r : str) (c : ascii).

Lemma forallb_Forall {A} (p : A -> bool) (xs : list A) :
  forallb p xs = true <-> Forall (fun x => p x = true) xs.
Proof.
  induction xs as [|x xs IH]; simpl.
  - split; [constructor | done].
  - rewrite andb_true_iff, IH, Forall_cons. done.
Qed.

Lemma snoc_cases {A} (xs : list A) :
  xs = [] \/ exists xs' x, xs = xs' ++ [x].
Proof. induction xs using rev_ind; eauto. Qed.

(** The label part of the pattern matches the labels of the grammar. *)
Lemma label_pattern_ok l : matches label_pattern l <-> label_ok l = true.
Proof.
  unfold label_pattern, opt, alnum_class, alnum_hyphen_class.
  rewrite matches_cat. split.
  - intros (s1 & s2 & -> & H1 & H2).
    apply matches_class in H1 as (c & -> & Hc).
    apply matches_alt in H2 as [H2|H2].
    + apply matches_eps in H2 as ->. unfold label_ok, label_char. simpl.
      rewrite Hc. reflexivity.
    + apply matches_cat in H2 as (mid & e & -> & Hmid & He).
      apply matches_class in He as (d & -> & Hd).
      apply matches_upto_class in Hmid as [Hlen Hall].
      unfold label_ok.
      change ([c] ++ mid ++ [d]) with ((c :: mid) ++ [d]).
      rewrite last_snoc, Hd, length_app, forallb_app.
      apply forallb_Forall in Hall.
      cbn [head app length forallb]. unfold label_char at 1 3.
      rewrite Hc, Hd. fold label_char.
      change (forallb (fun c => is_alnum c || ch_eqb c "-") mid)
        with (forallb label_char mid) in Hall.
      rewrite Hall. cbn [andb orb].
      rewrite !andb_true_r. apply Nat.leb_le. lia.
  - unfold label_ok. intros H.
    apply andb_true_iff in H as [H Hlast].
    apply andb_true_iff in H as [H Hhead].
    apply andb_true_iff in H as [H Hall].
    apply andb_true_iff in H as [_ Hlen].
    apply Nat.leb_le in Hlen. apply forallb_Forall in Hall.
    destruct l as [|c rest]; [done|]. cbn [head] in Hhead.
    exists [c], rest. split; [done|]. split; [by apply matches_class; eauto|].
    destruct (snoc_cases rest) as [-> | (rest' & x & ->)].
    + apply m_alt_l. constructor.
    + apply m_alt_r.
      change (c :: rest' ++ [x]) with ((c :: rest') ++ [x]) in *.
      rewrite last_snoc in Hlast. rewrite length_app in Hlen.
      cbn [length] in Hlen.
      apply Forall_app in Hall as [Hall _].
      apply Forall_cons in Hall as [_ Hall].
      apply matches_cat. exists rest', [x]. split; [done|]. split.
      * apply matches_upto_class. split; [lia | exact Hall].
      * apply matches_class. eauto.
Qed.

Lemma label_ok_no_dot l : label_ok l = true -> "."%char ∉ l.
Proof.
  unfold label_ok. intros H.
  repeat (apply andb_true_iff in H as [H ?]).
  match goal with Hf : forallb label_char l = true |- _ =>
    apply forallb_Forall in Hf; rename Hf into Hall end.
  intros Hin. rewrite Forall_forall in Hall.
  apply Hall in Hin. discriminate Hin.
Qed.

(** *** Splitting at a separator *)

Lemma split_on_nonempty (sep : ascii) s : split_on sep s <> [].
Proof.
  destruct s as [|c s]; simpl; [done|].
  destruct (ch_eqb c sep); [done|]. by destruct (split_on sep s).
Qed.

Lemma split_on_app_sep (sep : ascii) l r :
  sep ∉ l -> split_on sep (l ++ sep :: r) = l :: split_on sep r.
Proof.
  induction l as [|c l IH]; intros H; simpl.
  - by rewrite ch_eqb_refl.
  - apply not_elem_of_cons in H as [Hc Hl].
    assert (E : ch_eqb c sep = false) by (apply ch_eqb_neq; congruence).
    rewrite E, IH by done. reflexivity.
Qed.

Lemma split_on_no_sep (sep : ascii) l : sep ∉ l -> split_on sep l = [l].
Proof.
  induction l as [|c l IH]; intros H; simpl; [done|].
  apply not_elem_of_cons in H as [Hc Hl].
  assert (E : ch_eqb c sep = false) by (apply ch_eqb_neq; congruence).
  rewrite E, IH by done. reflexivity.
Qed.

Lemma split_on_cases (sep : ascii) s l ls :
  split_on sep s = l :: ls ->
  (sep ∉ l) /\
  ((ls = [] /\ s = l) \/
   (exists s', s = l ++ sep :: s' /\ split_on sep s' = ls)).
Proof.
  revert l ls. induction s as [|c s IH]; intros l ls; simpl.
  - intros [= <- <-]. split; [apply not_elem_of_nil | by left].
  - destruct (ch_eqb c sep) eqn:E.
    + apply ch_eqb_eq in E as ->. intros [= <- <-].
      split; [apply not_elem_of_nil|]. right. by exists s.
    + apply ch_eqb_neq in E.
      destruct (split_on sep s) as [|w ws] eqn:Es.
      { by apply split_on_nonempty in Es. }
      intros [= <- <-].
      destruct (IH w ws eq_refl) as [Hw Hcase]. split.
      * apply not_elem_of_cons. split; [congruence | done].
      * destruct Hcase as [[-> ->] | (s' & -> & Hs')]; [by left|].
        right. by exists s'.
Qed.

(** The whole pattern matches the dotted sequences of labels. *)

Lemma dotted_tail_ok r :
  matches (Star (Cat dot_class label_pattern)) r ->
  forall l, label_ok l = true -> domain_ok (l ++ r) = true.
Proof.
  intros H. remember (Star (Cat dot_class label_pattern)) as R eqn:ER.
  induction H as [| | | | | r0 | r0 s1 s2 H1 _ H2 IH2]; try discriminate.
  - intros l Hl. rewrite app_nil_r. unfold domain_ok.
    rewrite split_on_no_sep by by apply label_ok_no_dot.
    simpl. by rewrite Hl.
  - injection ER as ->. intros l Hl.
    apply matches_cat in H1 as (d & l1 & -> & Hd & Hl1).
    apply matches_class in Hd as (c & -> & Hc).
    apply ch_eqb_eq in Hc as ->.
    apply label_pattern_ok in Hl1.
    unfold domain_ok.
    change (l ++ (["."%char] ++ l1) ++ s2) with (l ++ "."%char :: (l1 ++ s2)).
    rewrite split_on_app_sep by by apply label_ok_no_dot.
    simpl. rewrite Hl. by apply IH2.
Qed.

Lemma domain_pattern_sound s : matches domain_pattern s -> domain_ok s = true.
Proof.
  unfold domain_pattern. intros H.
  apply matches_cat in H as (l & r & -> & Hl & Hr).
  apply dotted_tail_ok; [done|]. by apply label_pattern_ok.
Qed.

Lemma domain_pattern_complete s : domain_ok s = true -> matches domain_pattern s.
Proof.
  unfold domain_ok. remember (split_on "." s) as ls eqn:Els.
  intros Hall. revert s Els.
  induction ls as [|l ls IH]; intros s Els.
  - symmetry in Els. by apply split_on_nonempty in Els.
  - simpl in Hall. apply andb_true_iff in Hall as [Hl Hls].
    symmetry in Els.
    apply split_on_cases in Els as [_ [[-> ->] | (s' & -> & Hs')]].
    + unfold domain_pattern. rewrite <- (app_nil_r l).
      constructor; [by apply label_pattern_ok | constructor].
    + specialize (IH Hls s' (eq_sym Hs')).
      unfold domain_pattern in *.
      apply matches_cat in IH as (l1 & r & -> & Hl1 & Hr).
      change (l ++ "."%char :: l1 ++ r) with (l ++ (["."%char] ++ l1) ++ r).
      constructor; [by apply label_pattern_ok|].
      constructor; [|done].
      constructor; [|done]. by apply matches_class; eauto.
Qed.

Theorem accepts_domain_pattern s :
  accepts domain_pattern s = domain_ok s.
Proof.
  destruct (domain_ok s) eqn:E.
  - by apply accepts_matches, domain_pattern_complete.
  - destruct (accepts domain_pattern s) eqn:A; [|done].
    apply accepts_matches, domain_pattern_sound in A. congruence.
Qed.

End DomainGrammar.

(** ** [validate_url] *)

Section ValidateUrl.

Implicit Types (s t url : str).

Lemma strip_prefix_Some p s r : strip_prefix p s = Some r -> s = p ++ r.
Proof.
  revert s. induction p as [|a p IH]; intros [|b s]; simpl; try congruence.
  destruct (ch_eqb a b) eqn:E; [|done].
  apply ch_eqb_eq in E as ->. intros H. by rewrite (IH s H).
Qed.

(** [url.split('/')[0]] is the text before the first slash. *)
Lemma split_on_slash_head s :
  split_on "/" s !! 0 = Some (before_slash s).
Proof.
  induction s as [|c s IH]; simpl; [done|].
  destruct (ch_eqb c "/"); [done|].
  destruct (split_on "/" s) as [|w ws]; [done|].
  simpl in *. congruence.
Qed.

(** [url.split('://', 1)[1]] after the [startswith] test is the text after
    the scheme; the indexing never fails there. *)
Lemma split_scheme t :
  (if startswith t "http://" || startswith t "https://"
   then split_once "://" t !! 1
   else Some t)
  = Some (drop_scheme t).
Proof.
  unfold startswith, drop_scheme.
  destruct (strip_prefix "http://" t) as [r|] eqn:E1.
  - apply strip_prefix_Some in E1 as ->. reflexivity.
  - destruct (strip_prefix "https://" t) as [r|] eqn:E2; [|done].
    apply strip_prefix_Some in E2 as ->. reflexivity.
Qed.

(** The function never raises, and what it computes is the anchored match
    on the remainder together with the length bound. *)
Lemma validate_url_exact url :
  validate_url url
  = Some (truthy url
          && Re.match_anchored domain_pattern (remainder url)
          && (length (remainder url) <=? 253)).
Proof.
  unfold validate_url, remainder, remainder_as_stated.
  destruct (truthy url); [|done]. cbn [negb andb].
  rewrite split_scheme. cbn [mbind option_bind].
  rewrite split_on_slash_head. reflexivity.
Qed.

Lemma match_anchored_no_newline (body : Re.regex) s :
  last s <> Some newline ->
  Re.match_anchored body s = Re.accepts body s.
Proof.
  intros H. unfold Re.match_anchored.
  rewrite <- head_reverse in H.
  destruct (reverse s) as [|c before]; [apply orb_false_r|].
  simpl in H.
  assert (E : ch_eqb c newline = false) by (apply ch_eqb_neq; congruence).
  rewrite E. apply orb_false_r.
Qed.

End ValidateUrl.

(** C5, as the code has it.  [validate_url] never raises.  White space is
    stripped from both ends of a non-empty input first; then an [http://]
    or [https://] prefix and everything from the first [/] on are dropped.
    When the remainder does not end in a newline, the result is true exactly
    when the input is not empty, the remainder is a dotted sequence of
    labels of 1 to 63 letters, digits and inner hyphens, and the remainder
    has at most 253 characters.  [example.com] and
    [http://example.com/path] are valid; [not a domain!!] and the empty
    string are not. *)
Theorem validate_url_grammar :
  (forall url : str,
      last (remainder url) <> Some newline ->
      validate_url url
      = Some (truthy url && domain_ok (remainder url)
              && (length (remainder url) <=? 253)))
  /\ validate_url "example.com" = Some true
  /\ validate_url "http://example.com/path" = Some true
  /\ validate_url "not a domain!!" = Some false
  /\ validate_url [] = Some false.
Proof.
  split; [|by vm_compute].
  intros url Hnl. rewrite validate_url_exact.
  rewrite match_anchored_no_newline by done.
  by rewrite accepts_domain_pattern.
Qed.

Lemma validate_url_grammar_witness :
  validate_url "  https://sub-domain.example.com/a/b?c=d  " = Some true.
Proof.
  rewrite (proj1 validate_url_grammar); [reflexivity|].
  vm_compute. discriminate.
Defined.

(** C5, as stated, fails: surrounding white space is stripped before the
    prefix and the path are, so an input is accepted whose remainder, taken
    as the claim describes it, is not a sequence of labels. *)
Lemma validate_url_whitespace_counterexample :
  validate_url " example.com" = Some true
  /\ remainder_as_stated " example.com" = (" example.com" : str)
  /\ domain_ok (remainder_as_stated " example.com") = false.
Proof. by vm_compute. Qed.

(** The end anchor of the pattern also holds before a final newline, which
    the remainder keeps when a path follows it. *)
Lemma validate_url_newline_before_path :
  validate_url ("example.com" ++ [newline] ++ "/path") = Some true
  /\ domain_ok (remainder ("example.com" ++ [newline] ++ "/path")) = false.
Proof. by vm_compute. Qed.

(** ** The operator catalog *)

Section Catalog.

Context {V : Type}.
Implicit Types (k : str) (l : list (str * V)) (m : gmap str V).

Lemma foldl_insert_lookup l m k :
  foldl (fun m kv => <[kv.1 := kv.2]> m) m l !! k
  = match assoc_last k l with
    | Some v => Some v
    | None => m !! k
    end.
Proof.
  revert m. induction l as [|[k' v] l IH]; intros m; simpl; [done|].
  rewrite IH. destruct (assoc_last k l); [done|].
  destruct (str_eqb k k') eqn:E.
  - apply str_eqb_eq in E as ->. by rewrite lookup_insert_eq.
  - apply str_eqb_neq in E. by rewrite lookup_insert_ne.
Qed.

Lemma dict_literal_lookup l k : dict_literal l !! k = assoc_last k l.
Proof.
  unfold dict_literal. rewrite foldl_insert_lookup, lookup_empty.
  by destruct (assoc_last k l).
Qed.

Lemma assoc_last_None l k : assoc_last k l = None <-> k ∉ l.*1.
Proof.
  induction l as [|[k' v] l IH]; simpl.
  - split; [intros _; apply not_elem_of_nil | done].
  - rewrite not_elem_of_cons, <- IH.
    destruct (assoc_last k l); [split; [done | by intros [_ ?]]|].
    destruct (str_eqb k k') eqn:E.
    + apply str_eqb_eq in E. split; [done | by intros [? _]].
    + apply str_eqb_neq in E. done.
Qed.

Lemma assoc_last_Some l k v : assoc_last k l = Some v -> (k, v) ∈ l.
Proof.
  induction l as [|[k' v'] l IH]; simpl; [done|].
  destruct (assoc_last k l) as [w|].
  - intros [= ->]. apply elem_of_cons. right. by apply IH.
  - destruct (str_eqb k k') eqn:E; [|done].
    apply str_eqb_eq in E as ->. intros [= ->]. apply elem_of_cons. by left.
Qed.

End Catalog.

(** C8.  For every token: a token that is not a key of the catalog gets
    the fallback record (description [Unknown operator], type [keyword],
    placeholder [search term], no examples), and a token that is a key gets
    the entry the catalog holds for it, which is one of the entries written
    for that token.  The function has a result for every token. *)
Theorem get_operator_info_lookup (token : str) :
  (token ∉ SEARCH_OPERATORS_literal.*1 ->
     get_operator_info token = unknown_operator)
  /\ (token ∈ SEARCH_OPERATORS_literal.*1 ->
        SEARCH_OPERATORS !! token = Some (get_operator_info token)
        /\ (token, get_operator_info token) ∈ SEARCH_OPERATORS_literal)
  /\ unknown_operator
     = {| description := "Unknown operator";
          type := "keyword";
          placeholder := "search term";
          examples := [] |}.
Proof.
  unfold get_operator_info, dict_get, SEARCH_OPERATORS.
  rewrite dict_literal_lookup.
  split; [|split]; [| |reflexivity].
  - intros H. apply assoc_last_None in H. by rewrite H.
  - intros H.
    destruct (assoc_last token SEARCH_OPERATORS_literal) as [e|] eqn:E.
    + split; [done | by apply assoc_last_Some].
    + by apply assoc_last_None in E.
Qed.

Lemma get_operator_info_lookup_witness :
  get_operator_info "nosuch:" = unknown_operator
  /\ SEARCH_OPERATORS !! ("site:" : str) = Some (get_operator_info "site:")
  /\ (("allintitle:" : str), get_operator_info "allintitle:")
     ∈ SEARCH_OPERATORS_literal.
Proof.
  split; [|split].
  - apply (proj1 (get_operator_info_lookup "nosuch:")).
    apply assoc_last_None. reflexivity.
  - apply (proj1 (proj2 (get_operator_info_lookup "site:"))).
    apply list_elem_of_In, str_in_In. reflexivity.
  - apply (proj1 (proj2 (get_operator_info_lookup "allintitle:"))).
    apply list_elem_of_In, str_in_In. reflexivity.
Defined.

(** The token written twice in the literal keeps the second entry. *)
Lemma get_operator_info_allintitle :
  description (get_operator_info "allintitle:")
  = ("All specified words must appear in title" : str).
Proof. reflexivity. Qed.

(** ** Batch validation *)

Section Batch.

Implicit Types (s line : str) (ls : list str).

Lemma truthy_false s : truthy s = false <-> s = [].
Proof. by destruct s. Qed.

Lemma truthy_true s : truthy s = true <-> s <> [].
Proof. by destruct s. Qed.

Lemma lstrip_all_space s :
  Forall (fun c => isspace c = true) s -> lstrip s = [].
Proof. induction 1 as [|c s Hc _ IH]; simpl; [done|]. by rewrite Hc. Qed.

Lemma lstrip_nil_all_space s :
  lstrip s = [] -> Forall (fun c => isspace c = true) s.
Proof.
  induction s as [|c s IH]; simpl; [constructor|].
  destruct (isspace c) eqn:E; [|done]. intros H. constructor; auto.
Qed.

(** A string strips to nothing exactly when it is white space only. *)
Lemma strip_nil_iff s :
  strip s = [] <-> Forall (fun c => isspace c = true) s.
Proof.
  unfold strip. split.
  - destruct (lstrip_cases s) as [E | (c & t & E & Hc)].
    + intros _. by apply lstrip_nil_all_space.
    + rewrite E, rstrip_cons_nonspace by done. done.
  - intros H. by rewrite lstrip_all_space.
Qed.

Lemma split_on_Forall (P : ascii -> Prop) (sep : ascii) s :
  Forall P s -> Forall (Forall P) (split_on sep s).
Proof.
  induction 1 as [|c s Hc _ IH]; simpl.
  - repeat constructor.
  - destruct (ch_eqb c sep).
    + constructor; [constructor | done].
    + destruct (split_on sep s) as [|w ws]; [repeat constructor; done|].
      inversion IH; subst. constructor; [by constructor | done].
Qed.

Lemma trimmed_lines_all_space s :
  Forall (fun c => isspace c = true) s -> trimmed_lines s = [].
Proof.
  intros H. unfold trimmed_lines.
  apply (split_on_Forall _ newline) in H.
  induction H as [|line ls Hline _ IH]; simpl; [done|].
  apply strip_nil_iff in Hline. by rewrite Hline.
Qed.

(** The lines the code keeps are the trimmed non-empty lines. *)
Lemma kept_lines_trimmed ls :
  map strip (List.filter (fun line => truthy (strip line)) ls)
  = List.filter truthy (map strip ls).
Proof.
  induction ls as [|line ls IH]; simpl; [done|].
  destruct (truthy (strip line)); simpl; by rewrite IH.
Qed.

(** The loop that collects the cleaned queries keeps the non-empty cleaned
    lines in order. *)
Lemma cleaned_loop (acc : list str) ls :
  foldl
    (fun acc line =>
       let cleaned := clean_search_term line in
       if truthy cleaned then acc ++ [cleaned] else acc)
    acc ls
  = acc ++ List.filter truthy (map clean_search_term ls).
Proof.
  revert acc. induction ls as [|line ls IH]; intros acc; simpl.
  - by rewrite app_nil_r.
  - rewrite IH. destruct (truthy (clean_search_term line)); [|done].
    by rewrite <- app_assoc.
Qed.

Lemma filter_length_bound {A} (p : A -> bool) (xs : list A) :
  length (List.filter p xs) <= length xs.
Proof.
  induction xs as [|x xs IH]; simpl; [done|].
  destruct (p x); simpl; lia.
Qed.

Lemma filter_truthy_nonempty ls :
  Forall (fun w => w <> []) (List.filter truthy ls).
Proof.
  induction ls as [|w ls IH]; simpl; [constructor|].
  destruct (truthy w) eqn:E; [|done].
  constructor; [by apply truthy_true | done].
Qed.

(** The function, branch by branch, on the trimmed lines. *)
Lemma validate_batch_input_exact s :
  validate_batch_input s =
    if negb (truthy (strip s))
    then (false, [], "Batch input cannot be empty" : str)
    else
      let lines := trimmed_lines s in
      if negb (0 <? length lines)
      then (false, [], "No valid queries found" : str)
      else if 50 <? length lines
      then (false, [], "Maximum 50 queries allowed in batch mode" : str)
      else
        let queries := List.filter truthy (map clean_search_term lines) in
        if negb (0 <? length queries)
        then (false, [], "No valid queries after cleaning" : str)
        else (true, queries, []).
Proof.
  unfold validate_batch_input, trimmed_lines.
  rewrite kept_lines_trimmed, cleaned_loop.
  destruct s as [|c s]; [reflexivity|]. reflexivity.
Qed.

End Batch.

(** C7.  The cap is exactly 50 non-empty lines, counted after each line is
    trimmed and the empty ones are dropped: an input with 51 or more such
    lines is rejected with the message [Maximum 50 queries allowed in batch
    mode]; an input with 50 or fewer is never rejected with that message;
    an empty or white-space-only input is rejected with the message [Batch
    input cannot be empty]; and the 51 lines a, b and 49 times c are
    rejected as too many. *)
Theorem validate_batch_cap :
  (forall batch_input : str,
      51 <= length (trimmed_lines batch_input) ->
      validate_batch_input batch_input
      = (false, [], "Maximum 50 queries allowed in batch mode" : str))
  /\ (forall batch_input : str,
        length (trimmed_lines batch_input) <= 50 ->
        (validate_batch_input batch_input).2
        <> ("Maximum 50 queries allowed in batch mode" : str))
  /\ (forall batch_input : str,
        Forall (fun c => isspace c = true) batch_input ->
        validate_batch_input batch_input
        = (false, [], "Batch input cannot be empty" : str))
  /\ validate_batch_input
       ("a" ++ [newline] ++ "b" ++ [newline]
        ++ concat (replicate 49 ("c" ++ [newline])))
     = (false, [], "Maximum 50 queries allowed in batch mode" : str).
Proof.
  split; [|split; [|split]].
  - intros s Hn. rewrite validate_batch_input_exact.
    destruct (truthy (strip s)) eqn:E.
    + cbn [negb]. cbv zeta.
      assert (H1 : (0 <? length (trimmed_lines s)) = true)
        by (apply Nat.ltb_lt; lia).
      assert (H2 : (50 <? length (trimmed_lines s)) = true)
        by (apply Nat.ltb_lt; lia).
      by rewrite H1, H2.
    + apply truthy_false, strip_nil_iff, trimmed_lines_all_space in E.
      rewrite E in Hn. simpl in Hn. lia.
  - intros s Hn. rewrite validate_batch_input_exact.
    destruct (truthy (strip s)); cbn [negb]; [|discriminate]. cbv zeta.
    destruct (0 <? length (trimmed_lines s)); cbn [negb]; [|discriminate].
    assert (H2 : (50 <? length (trimmed_lines s)) = false)
      by (apply Nat.ltb_ge; lia).
    rewrite H2.
    destruct (0 <? length _); cbn [negb]; discriminate.
  - intros s Hs. rewrite validate_batch_input_exact.
    apply strip_nil_iff in Hs. by rewrite Hs.
  - by vm_compute.
Qed.

Lemma validate_batch_cap_witness :
  validate_batch_input (concat (replicate 51 ("q" ++ [newline])))
  = (false, [], "Maximum 50 queries allowed in batch mode" : str)
  /\ (validate_batch_input (concat (replicate 50 ("q" ++ [newline])))).2
     <> ("Maximum 50 queries allowed in batch mode" : str)
  /\ validate_batch_input (" " ++ [newline] ++ "  ")
     = (false, [], "Batch input cannot be empty" : str).
Proof.
  split; [|split].
  - apply (proj1 validate_batch_cap). vm_compute. lia.
  - apply (proj1 (proj2 validate_batch_cap)). vm_compute. lia.
  - apply (proj1 (proj2 (proj2 validate_batch_cap))).
    repeat constructor.
Defined.

(** C10.  For every input the three components agree: a result that is not
    ok has no queries and a non-empty message; a result that is ok has the
    empty message and between 1 and 50 queries, none of them empty, which
    are the non-empty cleaned forms of the trimmed non-empty lines in their
    input order. *)
Theorem validate_batch_consistent (batch_input : str) :
  match validate_batch_input batch_input with
  | (false, queries, error) => queries = [] /\ error <> []
  | (true, queries, error) =>
      error = []
      /\ 1 <= length queries <= 50
      /\ Forall (fun query => query <> []) queries
      /\ queries
         = List.filter truthy
             (map clean_search_term (trimmed_lines batch_input))
  end.
Proof.
  rewrite validate_batch_input_exact.
  destruct (truthy (strip batch_input)); cbn [negb]; [|by split].
  cbv zeta.
  destruct (0 <? length (trimmed_lines batch_input)); cbn [negb]; [|by split].
  destruct (50 <? length (trimmed_lines batch_input)) eqn:E50; [by split|].
  apply Nat.ltb_ge in E50.
  destruct (0 <? length (List.filter truthy _)) eqn:E0; cbn [negb];
    [|by split].
  apply Nat.ltb_lt in E0.
  split; [done|]. split; [|split; [apply filter_truthy_nonempty | done]].
  split; [lia|].
  etransitivity; [apply filter_length_bound|].
  by rewrite length_map.
Qed.

(** ** The history file *)

Section PersistenceFacts.

Context {entry : Type}.
Variable json_dump : list entry -> str.
Variable json_load : str -> option (list entry).

Implicit Types (history : list entry) (w : world).

Lemma slice_last_length {A} (n : nat) (l : list A) :
  length (slice_last n l) = Nat.min n (length l).
Proof. unfold slice_last. rewrite length_drop. lia. Qed.

(** [l[-n:]] is the end of [l]: what it leaves out comes first. *)
Lemma slice_last_suffix {A} (n : nat) (l : list A) :
  l = take (length l - n) l ++ slice_last n l.
Proof. unfold slice_last. by rewrite take_drop. Qed.

Lemma load_after_write (text : str) w :
  io_error w = false ->
  load_search_history json_load (write_file HISTORY_FILE text w)
  = match json_load text with
    | Some history => (history, write_file HISTORY_FILE text w)
    | None =>
        ([], print "Error loading search history"
               (write_file HISTORY_FILE text w))
    end.
Proof.
  intros Hio. unfold load_search_history, write_file. simpl.
  rewrite lookup_insert_eq, Hio. reflexivity.
Qed.

End PersistenceFacts.

(** C6.  When the file can be opened and the JSON library reads back what
    it wrote, [save_search_history X] followed by [load_search_history]
    returns the saved list and leaves the world as the save left it: the
    list is [X] itself when [X] has at most 1000 entries, and otherwise its
    last 1000 entries in their order, the entries before them dropped. *)
Theorem save_load_roundtrip {entry : Type}
    (json_dump : list entry -> str) (json_load : str -> option (list entry))
    (X : list entry) (w : world) :
  let kept := if 1000 <? length X then slice_last 1000 X else X in
  let w' := save_search_history json_dump X w in
  io_error w = false ->
  json_load (json_dump kept) = Some kept ->
  load_search_history json_load w' = (kept, w')
  /\ (length X <= 1000 -> kept = X)
  /\ (1000 < length X ->
        length kept = 1000
        /\ X = take (length X - 1000) X ++ kept
        /\ kept = drop (length X - 1000) X).
Proof.
  intros kept w' Hio Hjson. split; [|split].
  - subst w'. unfold save_search_history. fold kept. rewrite Hio.
    rewrite load_after_write by done. by rewrite Hjson.
  - intros Hlen. subst kept.
    apply Nat.ltb_ge in Hlen. by rewrite Hlen.
  - intros Hlen. subst kept.
    assert (E : (1000 <? length X) = true) by by apply Nat.ltb_lt.
    rewrite E. split; [|split].
    + rewrite slice_last_length. lia.
    + apply slice_last_suffix.
    + reflexivity.
Qed.

Lemma save_load_roundtrip_witness :
  let w := {| files := ∅; io_error := false; stdout := [] |} in
  let dump := join [newline] in
  let load := fun text => Some (split_on newline text) in
  let X := ["site:example.com" : str; "intitle:tutorial" : str] in
  fst (load_search_history load (save_search_history dump X w)) = X.
Proof.
  intros w dump load X.
  destruct (save_load_roundtrip dump load X w) as (H & _ & _);
    [reflexivity | reflexivity |].
  rewrite H. reflexivity.
Defined.

(** * Further properties *)

(** ** More on strings *)

Section MoreStrings.

Implicit Types (s t u v w : str) (c : ascii) (ws : list str).

Lemma lstrip_app_nonspace u c v :
  isspace c = false -> lstrip (u ++ c :: v) = lstrip u ++ c :: v.
Proof.
  intros H. induction u as [|x u IH]; simpl.
  - by rewrite H.
  - destruct (isspace x); [exact IH | done].
Qed.

Lemma rstrip_app_nonspace u c v :
  isspace c = false -> rstrip (u ++ c :: v) = u ++ c :: rstrip v.
Proof.
  intros H. unfold rstrip.
  rewrite reverse_app, reverse_cons, <- app_assoc. simpl.
  rewrite lstrip_app_nonspace by done.
  rewrite reverse_app, reverse_cons, reverse_involutive.
  by rewrite <- app_assoc.
Qed.

(** A string with no white space at either end is left as it is. *)
Lemma strip_fixed s :
  (forall c, head s = Some c -> isspace c = false) ->
  (forall c, last s = Some c -> isspace c = false) ->
  strip s = s.
Proof.
  intros Hh Hl. unfold strip.
  assert (E : lstrip s = s).
  { destruct s as [|c s]; [done|]. apply lstrip_nonspace. by apply Hh. }
  rewrite E. unfold rstrip.
  assert (E' : lstrip (reverse s) = reverse s).
  { destruct (reverse s) as [|c r] eqn:Er; [done|].
    apply lstrip_nonspace. apply Hl. rewrite <- head_reverse, Er. done. }
  by rewrite E', reverse_involutive.
Qed.

Lemma strip_all_space s :
  Forall (fun c => isspace c = true) s -> strip s = [].
Proof. intros H. unfold strip. by rewrite lstrip_all_space. Qed.

(** *** Words and [join] *)

Lemma join_cons sep w ws :
  ws <> [] -> join sep (w :: ws) = w ++ sep ++ join sep ws.
Proof. by destruct ws. Qed.

Lemma words_of_is_word s ws : words_of s ws -> Forall is_word ws.
Proof.
  induction 1 as [|c s ws _ _ IH|w Hw|w c s ws Hw _ _ IH].
  - constructor.
  - exact IH.
  - by constructor.
  - by constructor.
Qed.

Lemma split_ws_is_word s : Forall is_word (split_ws s).
Proof. apply (words_of_is_word s), split_ws_words_of. Qed.

Lemma words_of_join ws : Forall is_word ws -> words_of (join " " ws) ws.
Proof.
  induction 1 as [|w ws Hw Hws IH]; [constructor|].
  destruct ws as [|w' ws']; [by apply words_last|].
  rewrite join_cons by done.
  change (w ++ " " ++ join " " (w' :: ws'))
    with (w ++ " "%char :: join " " (w' :: ws')).
  by apply words_next.
Qed.

(** Splitting what [join] put together gives the words back. *)
Lemma split_ws_join ws : Forall is_word ws -> split_ws (join " " ws) = ws.
Proof. intros H. by apply words_of_split_ws, words_of_join. Qed.

Lemma is_word_head w c : is_word w -> head w = Some c -> isspace c = false.
Proof.
  intros [_ H] Hc. destruct w as [|x w]; [done|].
  injection Hc as ->. by inversion H.
Qed.

Lemma is_word_last w c : is_word w -> last w = Some c -> isspace c = false.
Proof.
  intros [_ H] Hc. rewrite Forall_forall in H. apply H.
  rewrite last_Some in Hc. destruct Hc as [l' ->].
  apply elem_of_app. right. apply elem_of_cons. by left.
Qed.

Lemma head_app_nonempty {A} (l1 l2 : list A) :
  l1 <> [] -> head (l1 ++ l2) = head l1.
Proof. by destruct l1. Qed.

Lemma last_app_nonempty {A} (l1 l2 : list A) :
  l2 <> [] -> last (l1 ++ l2) = last l2.
Proof.
  intros H. destruct (snoc_cases l2) as [-> | (l' & x & ->)]; [done|].
  by rewrite app_assoc, !last_snoc.
Qed.

Lemma join_words_nonempty ws w : is_word w -> join " " (w :: ws) <> [].
Proof.
  intros [Hne _]. destruct ws; simpl; [done|]. by destruct w.
Qed.

Lemma join_words_head ws c :
  Forall is_word ws -> head (join " " ws) = Some c -> isspace c = false.
Proof.
  intros H. destruct H as [|w ws Hw Hws]; [done|].
  destruct ws as [|w' ws'].
  - by apply is_word_head.
  - rewrite join_cons by done.
    rewrite head_app_nonempty by apply Hw. by apply is_word_head.
Qed.

Lemma join_words_last ws c :
  Forall is_word ws -> last (join " " ws) = Some c -> isspace c = false.
Proof.
  induction 1 as [|w ws Hw Hws IH]; [done|].
  destruct ws as [|w' ws'].
  - by apply is_word_last.
  - rewrite join_cons by done.
    rewrite app_assoc, last_app_nonempty; [exact IH|].
    inversion Hws; subst. by apply join_words_nonempty.
Qed.

Lemma strip_join_words ws :
  Forall is_word ws -> strip (join " " ws) = join " " ws.
Proof.
  intros H. apply strip_fixed; intros c.
  - by apply join_words_head.
  - by apply join_words_last.
Qed.

(** The characters of the re-joined words: the characters of the string
    that are not white space, and single spaces between the words. *)
Lemma join_words_chars s ws :
  words_of s ws ->
  Forall (fun c => c = " "%char \/ (c ∈ s /\ isspace c = false))
    (join " " ws).
Proof.
  induction 1 as [|c s ws Hc _ IH|w [Hne Hw]|w c s ws [Hne Hw] Hc _ IH].
  - constructor.
  - eapply Forall_impl; [exact IH|]. intros x [->|[Hx Hs]]; [by left|].
    right. split; [|done]. apply elem_of_cons. by right.
  - simpl. rewrite Forall_forall in *. intros x Hx. right. auto.
  - assert (Hword : Forall (fun x => x = " "%char \/
                        (x ∈ w ++ c :: s /\ isspace x = false)) w).
    { rewrite Forall_forall in *. intros x Hx. right.
      split; [|auto]. apply elem_of_app. by left. }
    destruct ws as [|w' ws']; [done|].
    rewrite join_cons by done. apply Forall_app. split; [done|].
    apply Forall_app. split; [repeat constructor; by left|].
    eapply Forall_impl; [exact IH|]. intros x [->|[Hx Hs]]; [by left|].
    right. split; [|done]. apply elem_of_app. right.
    apply elem_of_cons. by right.
Qed.

Lemma join_words_keeps s ws c :
  words_of s ws -> c ∈ s -> isspace c = false -> c ∈ join " " ws.
Proof.
  intros H Hin Hc.
  induction H as [|x s ws Hx _ IH|w _|w x s ws [Hne Hw] Hx _ IH].
  - by apply elem_of_nil in Hin.
  - apply elem_of_cons in Hin as [->|Hin]; [congruence | auto].
  - done.
  - destruct ws as [|w' ws'].
    + simpl. apply elem_of_app in Hin as [Hin|Hin]; [done|].
      apply elem_of_cons in Hin as [->|Hin]; [congruence|].
      specialize (IH Hin). by apply elem_of_nil in IH.
    + rewrite join_cons by done.
      apply elem_of_app in Hin as [Hin|Hin].
      * apply elem_of_app. by left.
      * apply elem_of_cons in Hin as [->|Hin]; [congruence|].
        apply elem_of_app. right. apply elem_of_app. right. auto.
Qed.

Lemma join_words_length s ws :
  words_of s ws -> length (join " " ws) <= length s.
Proof.
  induction 1 as [|c s ws Hc _ IH|w _|w c s ws _ Hc _ IH].
  - done.
  - cbn [length]. lia.
  - done.
  - destruct ws as [|w' ws'].
    + cbn [join]. rewrite length_app. lia.
    + rewrite join_cons by done. rewrite !length_app.
      cbn [length] in *. change (length (" " : str)) with 1. lia.
Qed.

(** *** Lines *)

Lemma split_on_Forall_inv (P : ascii -> Prop) (sep : ascii) s :
  P sep -> Forall (Forall P) (split_on sep s) -> Forall P s.
Proof.
  intros Hsep. induction s as [|c s IH]; simpl; [constructor|].
  destruct (ch_eqb c sep) eqn:E.
  - apply ch_eqb_eq in E as ->. intros H. inversion H; subst.
    constructor; auto.
  - destruct (split_on sep s) as [|w ws] eqn:Es.
    { by apply split_on_nonempty in Es. }
    intros H. inversion H as [|? ? Hcw Hws]; subst.
    inversion Hcw; subst. constructor; [done|].
    apply IH. by constructor.
Qed.

(** *** Substrings *)

Lemma strip_prefix_app p s : strip_prefix p (p ++ s) = Some s.
Proof.
  induction p as [|a p IH]; simpl; [done|]. by rewrite ch_eqb_refl.
Qed.

Lemma contains_app_r sub u s : contains sub s = true -> contains sub (u ++ s) = true.
Proof.
  intros H. induction u as [|x u IH]; [done|].
  cbn [app contains]. rewrite IH. apply orb_true_r.
Qed.

Lemma contains_infix sub u v : contains sub (u ++ sub ++ v) = true.
Proof.
  apply contains_app_r. destruct (sub ++ v) as [|x r] eqn:E.
  - apply app_eq_nil in E as [-> _]. reflexivity.
  - cbn [contains]. rewrite <- E. unfold startswith.
    by rewrite strip_prefix_app.
Qed.

End MoreStrings.

(** ** The query builder: the remaining rules and what the URL is made of *)

Section BuilderFacts.

Implicit Types (operator term t : str) (extra : params).

Lemma not_date_operator operator :
  operator ∉ ["before:" : str; "after:" : str; "daterange:" : str] ->
  str_in operator ["before:" : str; "after:" : str] = false
  /\ str_eqb operator "daterange:" = false.
Proof.
  intros H. split.
  - apply str_in_not_In. intros Hin. apply H, list_elem_of_In.
    simpl in *. tauto.
  - apply str_eqb_neq. intros ->. apply H, list_elem_of_In. simpl. tauto.
Qed.

Lemma earlier_rule_operators_colon operator :
  operator ∈ earlier_rule_operators -> last operator = Some ":"%char.
Proof.
  unfold earlier_rule_operators. intros H.
  repeat (apply elem_of_cons in H as [-> | H]; [reflexivity|]).
  by apply elem_of_nil in H.
Qed.

(** The query of an operator ending in a colon that no earlier rule
    handles, with the tests as the code writes them. *)
Lemma build_query_colon operator term extra :
  last operator = Some ":"%char ->
  operator ∉ earlier_rule_operators ->
  build_query operator term extra =
    if str_in operator url_operators then operator ++ strip term
    else if contains " " (strip term)
            && negb (startswith (strip term) q && endswith (strip term) q)
         then operator ++ q ++ strip term ++ q
         else operator ++ strip term.
Proof.
  intros Hcolon Hearlier.
  assert (H1 : str_in operator ["before:" : str; "after:" : str] = false).
  { apply str_in_not_In. intros H. apply Hearlier, list_elem_of_In.
    unfold earlier_rule_operators. simpl in *. tauto. }
  assert (H2 : str_eqb operator "daterange:" = false).
  { apply str_eqb_neq. intros ->. apply Hearlier, list_elem_of_In.
    simpl. tauto. }
  assert (H3 : str_eqb operator "around(X):" = false).
  { apply str_eqb_neq. intros ->. apply Hearlier, list_elem_of_In.
    simpl. tauto. }
  assert (H4 : endswith operator ":" = true) by by apply endswith_char.
  unfold build_query. by rewrite H1, H2, H3, H4.
Qed.

Lemma build_query_around term extra :
  build_query "around(X):" term extra =
    if negb (contains "AROUND(" (upper (strip term))) then
      match split_ws (strip term) with
      | first :: ((_ :: _) as rest) => first ++ " AROUND(5) " ++ join " " rest
      | _ => strip term ++ " AROUND(5) related"
      end
    else strip term.
Proof. reflexivity. Qed.

Lemma build_search_url_shape operator term extra :
  build_search_url operator term extra
  = "https://www.google.com/search?q="
    ++ Urllib.form_encode (build_query operator term extra) ++ "&num=100".
Proof.
  unfold build_search_url. by rewrite UrllibFacts.quote_plus_form_encode.
Qed.

End BuilderFacts.

(** X1.  Rule 1.  For the operators [before:] and [after:], the date of the
    extra mapping is put after the operator exactly as it is given, whatever
    text it is, followed by a space and the stripped term; without a mapping,
    with an empty one or with one that has no date, the date is
    [2020-01-01]. *)
Theorem before_after_rule (operator term : str) :
  operator ∈ ["before:" : str; "after:" : str] ->
  (forall (d : gmap str str) (date : str),
      d !! ("date" : str) = Some date ->
      build_query operator term (Some d)
      = operator ++ date ++ " " ++ strip term)
  /\ (forall extra : params,
        (forall d, extra = Some d -> d !! ("date" : str) = None) ->
        build_query operator term extra
        = operator ++ "2020-01-01 " ++ strip term).
Proof.
  intros Hop.
  assert (H : str_in operator ["before:" : str; "after:" : str] = true)
    by by apply str_in_In, list_elem_of_In.
  split.
  - intros d date Hd. unfold build_query.
    by rewrite H, (date_param_present d date Hd).
  - intros extra Hd. unfold build_query.
    by rewrite H, (date_param_absent extra Hd).
Qed.

Lemma before_after_rule_witness :
  build_query "before:" " AI " (Some {[ ("date" : str) := ("next week" : str) ]})
  = ("before:next week AI" : str)
  /\ build_query "after:" "AI" (Some ∅) = ("after:2020-01-01 AI" : str).
Proof.
  split.
  - rewrite (proj1 (before_after_rule "before:" " AI "
                      ltac:(apply list_elem_of_In, str_in_In; reflexivity))
               {[ ("date" : str) := ("next week" : str) ]} "next week");
      reflexivity.
  - apply (proj2 (before_after_rule "after:" "AI"
                    ltac:(apply list_elem_of_In, str_in_In; reflexivity))).
    intros d [= <-]. reflexivity.
Defined.

(** X2.  Rule 5.  Every operator that does not end in a colon, in the catalog or
    not, the empty one included, is followed by one space and the stripped
    term; the extra mapping plays no part and the term is never quoted. *)
Theorem fallback_rule (operator term : str) (extra : params) :
  last operator <> Some ":"%char ->
  build_query operator term extra = operator ++ " " ++ strip term.
Proof.
  intros Hlast.
  assert (Hearlier : operator ∉ earlier_rule_operators).
  { intros H. by apply earlier_rule_operators_colon in H. }
  assert (H1 : str_in operator ["before:" : str; "after:" : str] = false).
  { apply str_in_not_In. intros H. apply Hearlier, list_elem_of_In.
    unfold earlier_rule_operators. simpl in *. tauto. }
  assert (H2 : str_eqb operator "daterange:" = false).
  { apply str_eqb_neq. intros ->. apply Hearlier, list_elem_of_In.
    simpl. tauto. }
  assert (H3 : str_eqb operator "around(X):" = false).
  { apply str_eqb_neq. intros ->. apply Hearlier, list_elem_of_In.
    simpl. tauto. }
  assert (H4 : endswith operator ":" = false).
  { destruct (endswith operator ":") eqn:E; [|done].
    by apply endswith_char in E. }
  unfold build_query. by rewrite H1, H2, H3, H4.
Qed.

Lemma fallback_rule_witness :
  build_query (q ++ q) " digital marketing " None
  = q ++ q ++ " digital marketing"
  /\ build_query [] "x" None = (" x" : str).
Proof.
  split.
  - apply (fallback_rule (q ++ q)). discriminate.
  - apply (fallback_rule []). discriminate.
Defined.

(** X3.  The extra mapping matters to the three date operators only: for every
    other operator the URL is the one built without a mapping. *)
Theorem extra_ignored_without_date_operator
    (operator term : str) (extra : params) :
  operator ∉ ["before:" : str; "after:" : str; "daterange:" : str] ->
  build_search_url operator term extra = build_search_url operator term None.
Proof.
  intros H. apply not_date_operator in H as [H1 H2].
  unfold build_search_url, build_query. by rewrite H1, H2.
Qed.

Lemma extra_ignored_without_date_operator_witness :
  build_search_url "site:" "example.com"
    (Some {[ ("date" : str) := ("2021-06-01" : str) ]})
  = build_search_url "site:" "example.com" None.
Proof.
  apply extra_ignored_without_date_operator.
  rewrite list_elem_of_In. apply str_in_not_In. reflexivity.
Defined.

(** X4.  A term that is already wrapped in double quotes gives the same URL as
    the bare term: for a keyword operator ending in a colon, and a term with
    a space inside and no white space at its ends, the builder adds the
    quotes the user left out and adds none to a term that has them. *)
Theorem prequoted_term_same_url (operator t : str) (extra : params) :
  last operator = Some ":"%char ->
  operator ∉ earlier_rule_operators ->
  operator ∉ url_operators ->
  " "%char ∈ t ->
  strip t = t ->
  ~ (head t = Some dquote /\ last t = Some dquote) ->
  build_search_url operator (q ++ t ++ q) extra
  = build_search_url operator t extra.
Proof.
  intros Hcolon Hearlier Hurl Hsp Hstrip Hnq.
  unfold build_search_url. f_equal. f_equal. f_equal.
  rewrite !build_query_colon by done.
  rewrite list_elem_of_In, <- str_in_not_In in Hurl. rewrite Hurl.
  assert (Hq : strip (q ++ t ++ q) = q ++ t ++ q).
  { apply strip_fixed; intros c.
    - intros [= <-]. reflexivity.
    - unfold q at 2. rewrite app_assoc, last_snoc. intros [= <-]. reflexivity. }
  rewrite Hq, Hstrip.
  assert (H1 : contains " " (q ++ t ++ q) = true).
  { apply (contains_char _ " "%char). apply elem_of_app. right.
    apply elem_of_app. by left. }
  assert (H2 : startswith (q ++ t ++ q) q = true) by reflexivity.
  assert (H3 : endswith (q ++ t ++ q) q = true).
  { apply endswith_char. unfold q at 2. by rewrite app_assoc, last_snoc. }
  rewrite H1, H2, H3. cbn [andb negb].
  apply (contains_char _ " "%char) in Hsp.
  change (contains " " t) with (contains [" "%char] t). rewrite Hsp.
  destruct (startswith t q) eqn:Es; [|done].
  destruct (endswith t q) eqn:Ee; [|done].
  exfalso. apply Hnq. split; [by apply startswith_char | by apply endswith_char].
Qed.

Lemma prequoted_term_same_url_witness :
  build_search_url "intitle:" (q ++ "data science" ++ q) None
  = build_search_url "intitle:" "data science" None.
Proof.
  apply prequoted_term_same_url.
  - reflexivity.
  - rewrite list_elem_of_In. apply str_in_not_In. reflexivity.
  - rewrite list_elem_of_In. apply str_in_not_In. reflexivity.
  - apply contains_char. reflexivity.
  - reflexivity.
  - intros [H _]. discriminate H.
Defined.

(** X5.  The query of the operator [around(X):] always holds an AROUND operator,
    in some letter case: the one the term brought or the [AROUND(5)] the
    rule puts in. *)
Theorem around_query_has_around (term : str) (extra : params) :
  contains "AROUND(" (upper (build_query "around(X):" term extra)) = true.
Proof.
  rewrite build_query_around.
  destruct (contains "AROUND(" (upper (strip term))) eqn:E; cbn [negb]; [done|].
  assert (H : forall a b : str,
             contains "AROUND(" (upper (a ++ " AROUND(5) " ++ b)) = true).
  { intros a b. unfold upper. rewrite !map_app.
    change (map upper_char (" AROUND(5) " : str))
      with ((" " : str) ++ ("AROUND(" : str) ++ ("5) " : str)).
    rewrite <- !app_assoc.
    rewrite (app_assoc (map upper_char a)).
    apply contains_infix. }
  destruct (split_ws (strip term)) as [|first [|second rest]].
  - apply (H _ ("related" : str)).
  - apply (H _ ("related" : str)).
  - apply H.
Qed.

(** X6.  What the URL is made of.  Every character of the URL is a letter, a
    digit or one of [_.-~+%:/?=&]; so it holds no space, no single or double
    quote, no angle bracket, no [#] and no backslash, whatever the operator
    and the term are; and it holds exactly one [?] and one [&], those of
    the template. *)
Theorem build_search_url_alphabet (operator term : str) (extra : params) :
  let url := build_search_url operator term extra in
  forallb
    (fun c => Urllib.always_safe c || existsb (ch_eqb c) ("+%:/?=&" : str))
    url = true
  /\ (forall c : ascii,
        c ∈ [" "%char; squote; dquote; "<"%char; ">"%char; "#"%char;
             "\"%char] ->
        c ∉ url)
  /\ length (List.filter (ch_eqb "?") url) = 1
  /\ length (List.filter (ch_eqb "&") url) = 1.
Proof.
  intros url. subst url. rewrite build_search_url_shape.
  set (e := Urllib.form_encode (build_query operator term extra)).
  assert (He : forallb Urllib.encoded_char e = true)
    by apply UrllibFacts.form_encode_chars.
  apply forallb_Forall in He.
  assert (Hall : forallb
            (fun c => Urllib.always_safe c
                      || existsb (ch_eqb c) ("+%:/?=&" : str))
            ("https://www.google.com/search?q=" ++ e ++ "&num=100") = true).
  { rewrite !forallb_app. apply andb_true_iff. split; [reflexivity|].
    apply andb_true_iff. split; [|reflexivity].
    apply forallb_Forall. eapply Forall_impl; [exact He|].
    intros c Hc. unfold Urllib.encoded_char in Hc.
    apply orb_true_iff in Hc as [Hc|Hc].
    - apply orb_true_iff in Hc as [Hc|Hc]; [by rewrite Hc|].
      apply ch_eqb_eq in Hc as ->. reflexivity.
    - apply ch_eqb_eq in Hc as ->. reflexivity. }
  assert (Hnone : forall x : ascii,
             Urllib.encoded_char x = false -> List.filter (ch_eqb x) e = []).
  { intros x Hx. clear Hall. induction He as [|c e Hc _ IH]; [done|].
    simpl. destruct (ch_eqb x c) eqn:E; [|exact IH].
    apply ch_eqb_eq in E as ->. congruence. }
  split; [exact Hall|]. split; [|split].
  - intros c Hc Hin. apply forallb_Forall in Hall.
    rewrite Forall_forall in Hall. specialize (Hall c Hin).
    repeat (apply elem_of_cons in Hc as [-> | Hc]; [discriminate Hall|]).
    by apply elem_of_nil in Hc.
  - rewrite !List.filter_app, !length_app, Hnone by reflexivity. reflexivity.
  - rewrite !List.filter_app, !length_app, Hnone by reflexivity. reflexivity.
Qed.

Lemma build_search_url_alphabet_witness :
  " "%char ∈ ("a < b" : str)
  /\ (" "%char ∉ build_search_url "intitle:" "a < b" None)
  /\ ("<"%char ∉ build_search_url "intitle:" "a < b" None).
Proof.
  split; [apply contains_char; reflexivity|].
  split;
    apply (proj1 (proj2 (build_search_url_alphabet "intitle:" "a < b" None)));
    apply contains_char; reflexivity.
Defined.

(** ** The validators *)

Section ValidatorFacts.

Implicit Types (s d url path : str) (c : ascii).

Lemma all_space_or_not s :
  Forall (fun c => isspace c = true) s
  \/ exists c, c ∈ s /\ isspace c = false.
Proof.
  induction s as [|x s [IH | (c & Hc & Hs)]].
  - left. constructor.
  - destruct (isspace x) eqn:E.
    + left. by constructor.
    + right. exists x. split; [apply elem_of_cons; by left | done].
  - right. exists c. split; [apply elem_of_cons; by right | done].
Qed.

Lemma strip_nonempty_iff s :
  strip s <> [] <-> exists c, c ∈ s /\ isspace c = false.
Proof.
  rewrite strip_nil_iff. split.
  - intros H. destruct (all_space_or_not s) as [Hs | Hc]; [done | done].
  - intros (c & Hin & Hc) Hall. rewrite Forall_forall in Hall.
    specialize (Hall c Hin). congruence.
Qed.

Lemma strip_length s : length (strip s) <= length s.
Proof.
  destruct (strip_decompose s) as (pre & post & E & _ & _).
  rewrite E at 2. rewrite !length_app. lia.
Qed.

Lemma label_ok_chars l : label_ok l = true -> Forall (fun c => label_char c = true) l.
Proof.
  unfold label_ok. intros H.
  repeat (apply andb_true_iff in H as [H ?]).
  by apply forallb_Forall.
Qed.

Lemma domain_ok_chars d :
  domain_ok d = true ->
  Forall (fun c => label_char c = true \/ c = "."%char) d.
Proof.
  unfold domain_ok. intros H.
  apply (split_on_Forall_inv _ "."%char); [by right|].
  apply forallb_Forall in H.
  eapply Forall_impl; [exact H|]. intros l Hl. simpl in Hl.
  apply label_ok_chars in Hl.
  eapply Forall_impl; [exact Hl|]. intros c Hc. by left.
Qed.

Lemma domain_ok_nonempty d : domain_ok d = true -> d <> [].
Proof. by intros H ->. Qed.

Lemma domain_ok_last d : domain_ok d = true -> last d <> Some newline.
Proof.
  intros H Hl. apply domain_ok_chars in H. rewrite Forall_forall in H.
  apply last_Some in Hl as [d' ->].
  destruct (H newline) as [E|E]; [|discriminate E|discriminate E].
  apply elem_of_app. right. apply elem_of_cons. by left.
Qed.

Lemma before_slash_app d path :
  "/"%char ∉ d -> before_slash (d ++ "/" ++ path) = d.
Proof.
  induction d as [|c d IH]; intros H; [done|].
  apply not_elem_of_cons in H as [Hc Hd].
  cbn [app before_slash].
  assert (E : ch_eqb c "/" = false) by (apply ch_eqb_neq; congruence).
  rewrite E. f_equal. by apply IH.
Qed.

Lemma before_slash_none d : "/"%char ∉ d -> before_slash d = d.
Proof.
  induction d as [|c d IH]; intros H; [done|].
  apply not_elem_of_cons in H as [Hc Hd]. simpl.
  assert (E : ch_eqb c "/" = false) by (apply ch_eqb_neq; congruence).
  rewrite E. f_equal. by apply IH.
Qed.

(** Without a colon in [d], the texts [d] and [d/...] start with no
    scheme. *)
Lemma drop_scheme_bare d rest :
  ":"%char ∉ d ->
  (forall x, head rest = Some x -> x = "/"%char) ->
  drop_scheme (d ++ rest) = d ++ rest.
Proof.
  intros Hcolon Hrest. unfold drop_scheme.
  assert (H1 : strip_prefix "http://" (d ++ rest) = None).
  { destruct (strip_prefix "http://" (d ++ rest)) as [r|] eqn:E; [|done].
    apply strip_prefix_Some in E. exfalso.
    destruct d as [|a [|b [|c [|e [|f d']]]]]; simpl in E;
      try (injection E; intros); subst;
      first [ by (specialize (Hrest _ eq_refl))
            | apply Hcolon; set_solver ]. }
  assert (H2 : strip_prefix "https://" (d ++ rest) = None).
  { destruct (strip_prefix "https://" (d ++ rest)) as [r|] eqn:E; [|done].
    apply strip_prefix_Some in E. exfalso.
    destruct d as [|a [|b [|c [|e [|f [|g d']]]]]]; simpl in E;
      try (injection E; intros); subst;
      first [ by (specialize (Hrest _ eq_refl))
            | apply Hcolon; set_solver ]. }
  by rewrite H1, H2.
Qed.

Lemma domain_ok_no c d :
  label_char c = false -> c <> "."%char -> domain_ok d = true -> c ∉ d.
Proof.
  intros Hc Hdot Hd Hin. apply domain_ok_chars in Hd.
  rewrite Forall_forall in Hd. destruct (Hd c Hin); congruence.
Qed.

Lemma isspace_not_label_char c :
  isspace c = true -> label_char c = false /\ c <> "."%char.
Proof.
  UrllibFacts.each_char c; intros E; try discriminate E; by split.
Qed.

Lemma domain_ok_head_nonspace d c :
  domain_ok d = true -> head d = Some c -> isspace c = false.
Proof.
  intros Hd Hc. destruct (isspace c) eqn:E; [|done]. exfalso.
  apply isspace_not_label_char in E as [E1 E2].
  apply (domain_ok_no c d); [done..|].
  destruct d; [done|]. injection Hc as ->. apply elem_of_cons. by left.
Qed.

Lemma domain_ok_last_nonspace d c :
  domain_ok d = true -> last d = Some c -> isspace c = false.
Proof.
  intros Hd Hc. destruct (isspace c) eqn:E; [|done]. exfalso.
  apply isspace_not_label_char in E as [E1 E2].
  apply (domain_ok_no c d); [done..|].
  apply last_Some in Hc as [d' ->]. apply elem_of_app. right.
  apply elem_of_cons. by left.
Qed.

(** The remainder of [scheme d / path] is [d]. *)
Lemma remainder_scheme_path d path :
  domain_ok d = true ->
  remainder d = d
  /\ remainder (d ++ "/" ++ path) = d
  /\ remainder ("http://" ++ d ++ "/" ++ path) = d
  /\ remainder ("https://" ++ d ++ "/" ++ path) = d.
Proof.
  intros Hd.
  assert (Hcolon : ":"%char ∉ d) by by apply domain_ok_no.
  assert (Hslash : "/"%char ∉ d) by by apply domain_ok_no.
  assert (Hb2 : drop_scheme d = d).
  { rewrite <- (app_nil_r d) at 1 2. by apply drop_scheme_bare. }
  assert (Hne := domain_ok_nonempty d Hd).
  assert (Hstrip : forall pre : str,
             (forall c, head (pre ++ d) = Some c -> isspace c = false) ->
             strip (pre ++ d ++ "/" ++ path)
             = pre ++ d ++ "/" ++ rstrip path).
  { intros pre Hpre. unfold strip.
    assert (E : lstrip (pre ++ d ++ "/" ++ path) = pre ++ d ++ "/" ++ path).
    { destruct (pre ++ d ++ "/" ++ path) as [|c r] eqn:Er; [done|].
      apply lstrip_nonspace. apply Hpre.
      rewrite app_assoc in Er.
      rewrite <- (head_app_nonempty (pre ++ d) ("/" ++ path)), Er; [done|].
      intros Hnil. apply app_eq_nil in Hnil as [_ ?]. done. }
    rewrite E, (app_assoc pre d).
    change ((pre ++ d) ++ "/" ++ path) with ((pre ++ d) ++ "/"%char :: path).
    rewrite rstrip_app_nonspace by reflexivity.
    by rewrite <- app_assoc. }
  unfold remainder, remainder_as_stated. split; [|split; [|split]].
  - rewrite strip_fixed.
    + by rewrite Hb2, before_slash_none.
    + intros c. by apply domain_ok_head_nonspace.
    + intros c. by apply domain_ok_last_nonspace.
  - specialize (Hstrip []). cbn [app] in Hstrip. rewrite Hstrip.
    + rewrite drop_scheme_bare; [by apply before_slash_app | done |].
      by intros x [= <-].
    + intros c. by apply domain_ok_head_nonspace.
  - rewrite (Hstrip "http://") by (intros c [= <-]; reflexivity).
    unfold drop_scheme. rewrite strip_prefix_app.
    by apply before_slash_app.
  - rewrite (Hstrip "https://") by (intros c [= <-]; reflexivity).
    unfold drop_scheme.
    change (strip_prefix "http://" ("https://" ++ d ++ "/" ++ rstrip path))
      with (@None str).
    rewrite strip_prefix_app.
    by apply before_slash_app.
Qed.

Lemma validate_url_remainder_ok url :
  url <> [] ->
  domain_ok (remainder url) = true ->
  length (remainder url) <= 253 ->
  validate_url url = Some true.
Proof.
  intros Hne Hd Hlen. rewrite validate_url_exact.
  rewrite match_anchored_no_newline by by apply domain_ok_last.
  rewrite accepts_domain_pattern, Hd.
  apply truthy_true in Hne. rewrite Hne.
  apply Nat.leb_le in Hlen. by rewrite Hlen.
Qed.

(** The anchored match, said on the grammar: the remainder is a dotted
    sequence of labels, or is one followed by a single newline. *)
Lemma match_anchored_domain r :
  Re.match_anchored domain_pattern r = true
  <-> domain_ok r = true
      \/ exists r', r = r' ++ [newline] /\ domain_ok r' = true.
Proof.
  unfold Re.match_anchored. rewrite orb_true_iff, accepts_domain_pattern.
  split.
  - intros [H|H]; [by left|]. right.
    destruct (reverse r) as [|c before] eqn:Er; [done|].
    apply andb_true_iff in H as [Hc Hb]. apply ch_eqb_eq in Hc as ->.
    rewrite accepts_domain_pattern in Hb.
    exists (reverse before). split; [|done].
    rewrite <- (reverse_involutive r), Er. by rewrite reverse_cons.
  - intros [H | (r' & -> & H)]; [by left|]. right.
    rewrite reverse_app. simpl.
    rewrite reverse_involutive, accepts_domain_pattern, H. reflexivity.
Qed.

Lemma validate_keyword_iff keyword :
  validate_keyword keyword = true
  <-> (exists c, c ∈ keyword /\ isspace c = false)
      /\ length (strip keyword) <= 500.
Proof.
  unfold validate_keyword. rewrite <- strip_nonempty_iff.
  destruct keyword as [|x k]; [by split; [|intros [? _]]|].
  cbn [truthy negb]. rewrite andb_true_iff, Nat.ltb_lt, Nat.leb_le.
  split; intros [H1 H2]; (split; [|done]).
  - intros E. rewrite E in H1. simpl in H1. lia.
  - destruct (strip (x :: k)); [done | simpl; lia].
Qed.

Lemma validate_keyword_all_space keyword :
  Forall (fun c => isspace c = true) keyword ->
  validate_keyword keyword = false.
Proof.
  intros Hall. apply not_true_iff_false. intros E.
  apply validate_keyword_iff in E as [(c & Hin & Hc) _].
  rewrite Forall_forall in Hall. specialize (Hall c Hin). congruence.
Qed.

Lemma validate_url_all_space url :
  Forall (fun c => isspace c = true) url -> validate_url url = Some false.
Proof.
  intros Hall. rewrite validate_url_exact.
  unfold remainder. rewrite strip_all_space by done.
  by rewrite andb_false_r.
Qed.

Lemma validate_url_total url : exists b, validate_url url = Some b.
Proof. rewrite validate_url_exact. eauto. Qed.

End ValidatorFacts.

(** X7.  [validate_keyword] accepts a string exactly when it has a character
    that is not white space and is at most 500 characters long once
    stripped; so white-space-only input is rejected, and any string of at
    most 500 characters with something in it is accepted. *)
Theorem validate_keyword_spec (keyword : str) :
  (validate_keyword keyword = true
   <-> (exists c, c ∈ keyword /\ isspace c = false)
       /\ length (strip keyword) <= 500)
  /\ (Forall (fun c => isspace c = true) keyword ->
      validate_keyword keyword = false)
  /\ ((exists c, c ∈ keyword /\ isspace c = false) ->
      length keyword <= 500 -> validate_keyword keyword = true).
Proof.
  split; [apply validate_keyword_iff|]. split.
  - apply validate_keyword_all_space.
  - intros Hc Hlen. apply validate_keyword_iff. split; [done|].
    pose proof (strip_length keyword). lia.
Qed.

Lemma validate_keyword_spec_witness :
  validate_keyword "   " = false
  /\ validate_keyword " machine learning " = true.
Proof.
  split.
  - apply (proj1 (proj2 (validate_keyword_spec "   "))). repeat constructor.
  - apply (proj2 (proj2 (validate_keyword_spec " machine learning "))).
    + exists "m"%char. split; [|reflexivity].
      apply contains_char. reflexivity.
    + simpl. lia.
Defined.

(** X8.  What [validate_url] accepts, in full: a non-empty input whose remainder
    (white space stripped, scheme and path dropped) has at most 253
    characters and is a dotted sequence of labels, or such a sequence
    followed by one newline. *)
Theorem validate_url_accepts_iff (url : str) :
  validate_url url = Some true
  <-> url <> []
      /\ length (remainder url) <= 253
      /\ (domain_ok (remainder url) = true
          \/ exists r, remainder url = r ++ [newline] /\ domain_ok r = true).
Proof.
  rewrite validate_url_exact, <- match_anchored_domain, <- truthy_true.
  rewrite <- Nat.leb_le.
  destruct (truthy url), (Re.match_anchored domain_pattern (remainder url)),
    (length (remainder url) <=? 253); simpl; split;
    try done; try (intros (? & ? & ?); done).
Qed.

(** X9.  What [validate_url] never accepts: an input whose remainder holds any
    character other than a letter, a digit, a hyphen, a dot or a newline. A
    host with a port, a user name, an underscore or a space inside is
    rejected. *)
Theorem validate_url_rejects_char (url : str) (c : ascii) :
  c ∈ remainder url ->
  label_char c = false -> c <> "."%char -> c <> newline ->
  validate_url url = Some false.
Proof.
  intros Hin Hc Hdot Hnl. rewrite validate_url_exact.
  destruct (Re.match_anchored domain_pattern (remainder url)) eqn:E;
    [|by rewrite andb_false_r].
  exfalso. apply match_anchored_domain in E as [H | (r & Hr & H)].
  - by apply (domain_ok_no c (remainder url)).
  - rewrite Hr in Hin. apply elem_of_app in Hin as [Hin|Hin].
    + by apply (domain_ok_no c r).
    + apply elem_of_cons in Hin as [->|Hin]; [done|].
      by apply elem_of_nil in Hin.
Qed.

Lemma validate_url_rejects_char_witness :
  validate_url "example.com:8080/index.html" = Some false
  /\ validate_url "my_site.example.com" = Some false.
Proof.
  split.
  - apply (validate_url_rejects_char _ ":"%char); try done.
    apply contains_char. reflexivity.
  - apply (validate_url_rejects_char _ "_"%char); try done.
    apply contains_char. reflexivity.
Defined.

(** X10.  A dotted sequence of labels of at most 253 characters is accepted as it
    is, with a path after it, and with an [http://] or [https://] scheme in
    front, whatever the path holds. *)
Theorem validate_url_scheme_and_path (d path : str) :
  domain_ok d = true ->
  length d <= 253 ->
  validate_url d = Some true
  /\ validate_url (d ++ "/" ++ path) = Some true
  /\ validate_url ("http://" ++ d ++ "/" ++ path) = Some true
  /\ validate_url ("https://" ++ d ++ "/" ++ path) = Some true.
Proof.
  intros Hd Hlen.
  destruct (remainder_scheme_path d path Hd) as (R1 & R2 & R3 & R4).
  assert (Hne := domain_ok_nonempty d Hd).
  split; [|split; [|split]]; apply validate_url_remainder_ok;
    rewrite ?R1, ?R2, ?R3, ?R4; try done.
  intros E. apply app_eq_nil in E as [? _]. done.
Qed.

Lemma validate_url_scheme_and_path_witness :
  validate_url "https://docs.python.org/3/library/re.html?x=1 2" = Some true.
Proof.
  apply (proj2 (proj2 (proj2
    (validate_url_scheme_and_path "docs.python.org" "3/library/re.html?x=1 2"
       eq_refl ltac:(simpl; lia))))).
Defined.

(** ** Cleaning a search term *)

Section CleanFacts.

Implicit Types (s x line : str) (c d : ascii).

(** The harmful characters removed one after the other. *)
Abbreviation remove_harmful x :=
  (foldl (fun s c => remove_char c s) x harmful_chars).

Lemma remove_char_elem c d s : c ∈ remove_char d s <-> c ∈ s /\ c <> d.
Proof.
  unfold remove_char. rewrite !list_elem_of_In, filter_In.
  rewrite negb_true_iff, ch_eqb_neq. done.
Qed.

Lemma remove_char_absent d s : d ∉ s -> remove_char d s = s.
Proof.
  induction s as [|x s IH]; intros H; [done|].
  apply not_elem_of_cons in H as [Hx Hs]. unfold remove_char in *. simpl.
  assert (E : ch_eqb x d = false) by (apply ch_eqb_neq; congruence).
  rewrite E. simpl. by rewrite IH.
Qed.

Lemma remove_harmful_elem c x :
  c ∈ remove_harmful x <-> c ∈ x /\ c ∉ harmful_chars.
Proof.
  unfold harmful_chars. cbn [foldl].
  rewrite !remove_char_elem, !not_elem_of_cons. split.
  - intros [[[[[? ?] ?] ?] ?] ?]. repeat split; try done.
    apply not_elem_of_nil.
  - intros [? (? & ? & ? & ? & ? & ?)]. repeat split; done.
Qed.

Lemma remove_harmful_harmless x :
  (forall c, c ∈ harmful_chars -> c ∉ x) -> remove_harmful x = x.
Proof.
  intros H. unfold harmful_chars in *. cbn [foldl].
  rewrite (remove_char_absent "<" x)
    by (apply H, (contains_char _ "<"%char); reflexivity).
  rewrite (remove_char_absent ">" x)
    by (apply H, (contains_char _ ">"%char); reflexivity).
  rewrite (remove_char_absent "&" x)
    by (apply H, (contains_char _ "&"%char); reflexivity).
  rewrite (remove_char_absent dquote x)
    by (apply H, (contains_char _ dquote); reflexivity).
  by rewrite (remove_char_absent squote x)
    by (apply H, (contains_char _ squote); reflexivity).
Qed.

Lemma clean_search_term_unfold s :
  clean_search_term s = strip (remove_harmful (join " " (split_ws s))).
Proof. by destruct s. Qed.

Lemma strip_elem c s : c ∈ strip s -> c ∈ s.
Proof.
  intros H. destruct (strip_decompose s) as (pre & post & E & _ & _).
  rewrite E. apply elem_of_app. right. apply elem_of_app. by left.
Qed.

Lemma strip_keeps c s : c ∈ s -> isspace c = false -> c ∈ strip s.
Proof.
  intros H Hc. destruct (strip_decompose s) as (pre & post & E & Hpre & Hpost).
  rewrite E in H. rewrite Forall_forall in Hpre, Hpost.
  apply elem_of_app in H as [H|H]; [apply Hpre in H; congruence|].
  apply elem_of_app in H as [H|H]; [done|]. apply Hpost in H. congruence.
Qed.

(** Every character of a cleaned term is a plain space, or a character of
    the input that is neither white space nor harmful. *)
Lemma clean_chars s c :
  c ∈ clean_search_term s ->
  (c ∉ harmful_chars)
  /\ (c = " "%char \/ (c ∈ s /\ isspace c = false)).
Proof.
  rewrite clean_search_term_unfold. intros H.
  apply strip_elem, remove_harmful_elem in H as [H Hh]. split; [done|].
  pose proof (join_words_chars s _ (split_ws_words_of s)) as Hall.
  rewrite Forall_forall in Hall. by apply Hall.
Qed.

Lemma clean_keeps s c :
  c ∈ s -> isspace c = false -> c ∉ harmful_chars -> c ∈ clean_search_term s.
Proof.
  intros Hin Hc Hh. rewrite clean_search_term_unfold.
  apply strip_keeps; [|done]. apply remove_harmful_elem. split; [|done].
  by apply (join_words_keeps s _ c (split_ws_words_of s)).
Qed.

Lemma clean_head s c :
  head (clean_search_term s) = Some c -> isspace c = false.
Proof. rewrite clean_search_term_unfold. apply strip_head. Qed.

Lemma clean_last s c :
  last (clean_search_term s) = Some c -> isspace c = false.
Proof. rewrite clean_search_term_unfold. apply strip_last. Qed.

Lemma clean_nil_iff s :
  clean_search_term s = []
  <-> Forall (fun c => isspace c = true \/ c ∈ harmful_chars) s.
Proof.
  split.
  - intros E. apply Forall_forall. intros c Hin.
    destruct (isspace c) eqn:Hc; [by left|]. right.
    destruct (decide (c ∈ harmful_chars)) as [|Hh]; [done|].
    pose proof (clean_keeps s c Hin Hc Hh) as H. rewrite E in H.
    by apply elem_of_nil in H.
  - intros Hall. rewrite Forall_forall in Hall.
    destruct (clean_search_term s) as [|c r] eqn:E; [done|]. exfalso.
    assert (Hin : c ∈ clean_search_term s) by (rewrite E; apply elem_of_cons; by left).
    assert (Hsp : isspace c = false) by (apply (clean_head s); by rewrite E).
    apply clean_chars in Hin as [Hh [-> | [Hin _]]]; [discriminate Hsp|].
    destruct (Hall c Hin); [congruence | done].
Qed.

(** On a term without harmful characters cleaning only normalises the white
    space. *)
Lemma clean_harmless s :
  (forall c, c ∈ harmful_chars -> c ∉ s) ->
  clean_search_term s = join " " (split_ws s).
Proof.
  intros H. rewrite clean_search_term_unfold.
  rewrite remove_harmful_harmless.
  - apply strip_join_words, split_ws_is_word.
  - intros c Hc Hin.
    pose proof (join_words_chars s _ (split_ws_words_of s)) as Hall.
    rewrite Forall_forall in Hall.
    destruct (Hall c Hin) as [-> | [Hs _]].
    + unfold harmful_chars in Hc.
      repeat (apply elem_of_cons in Hc as [Hc | Hc]; [discriminate Hc|]).
      by apply elem_of_nil in Hc.
    + by apply (H c).
Qed.

Lemma clean_harmless_idemp s :
  (forall c, c ∈ harmful_chars -> c ∉ s) ->
  clean_search_term (clean_search_term s) = clean_search_term s.
Proof.
  intros H. rewrite (clean_harmless s H).
  rewrite clean_harmless.
  - by rewrite split_ws_join by apply split_ws_is_word.
  - intros c Hc Hin. rewrite <- (clean_harmless s H) in Hin.
    apply clean_chars in Hin as [Hh _]. done.
Qed.

End CleanFacts.

(** X11.  Whatever the input, the cleaned term holds none of the characters
    [<], [>], [&], the double quote and the single quote. *)
Theorem clean_search_term_never_harmful (search_term : str) (c : ascii) :
  c ∈ harmful_chars -> c ∉ clean_search_term search_term.
Proof. intros Hc Hin. by apply clean_chars in Hin as [Hh _]. Qed.

Lemma clean_search_term_never_harmful_witness :
  "<"%char ∈ harmful_chars
  /\ ("<"%char ∉ clean_search_term "<script>alert('x')</script>").
Proof.
  assert (H : "<"%char ∈ harmful_chars) by (apply contains_char; reflexivity).
  split; [exact H|]. exact (clean_search_term_never_harmful _ _ H).
Defined.

(** X12.  The white space of a cleaned term: none at its two ends, and inside
    only plain spaces, tabs and newlines of the input having become
    spaces. *)
Theorem clean_search_term_whitespace (search_term : str) :
  (forall c, head (clean_search_term search_term) = Some c ->
             isspace c = false)
  /\ (forall c, last (clean_search_term search_term) = Some c ->
                isspace c = false)
  /\ (forall c, c ∈ clean_search_term search_term -> isspace c = true ->
                c = " "%char).
Proof.
  split; [apply clean_head|]. split; [apply clean_last|].
  intros c Hin Hc. apply clean_chars in Hin as [_ [-> | [_ H]]]; [done|].
  congruence.
Qed.

Lemma clean_search_term_whitespace_witness :
  clean_search_term ([chr 9] ++ "data" ++ [chr 9; newline] ++ "science ")
  = ("data science" : str)
  /\ isspace "d" = false /\ isspace "e" = false.
Proof.
  destruct (clean_search_term_whitespace
              ([chr 9] ++ "data" ++ [chr 9; newline] ++ "science "))
    as (Hhead & Hlast & _).
  split; [reflexivity|]. split.
  - apply Hhead. reflexivity.
  - apply Hlast. reflexivity.
Defined.

(** X13.  A term is cleaned to the empty string exactly when it holds nothing
    but white space and harmful characters; any other character of the
    input is still there after cleaning. *)
Theorem clean_search_term_empty_iff (search_term : str) :
  (clean_search_term search_term = []
   <-> Forall (fun c => isspace c = true \/ c ∈ harmful_chars) search_term)
  /\ (forall c, c ∈ search_term -> isspace c = false ->
                c ∉ harmful_chars -> c ∈ clean_search_term search_term).
Proof. split; [apply clean_nil_iff | apply clean_keeps]. Qed.

Lemma clean_search_term_empty_iff_witness :
  clean_search_term (" <> " ++ q ++ " & ") = []
  /\ "x"%char ∈ clean_search_term "<x>".
Proof.
  split.
  - apply (proj1 (clean_search_term_empty_iff _)).
    apply Forall_forall. intros c Hc.
    repeat (apply elem_of_cons in Hc as [-> | Hc];
            [first [ by left | right; apply contains_char; reflexivity ]|]).
    by apply elem_of_nil in Hc.
  - apply (proj2 (clean_search_term_empty_iff "<x>")).
    + apply contains_char. reflexivity.
    + reflexivity.
    + intros H. apply contains_char in H. discriminate H.
Defined.

(** X14.  Cleaning settles after two passes and not always after one: a third
    pass changes nothing; on a term without harmful characters the second
    pass already changes nothing; but a removed character can leave two
    spaces side by side, which only the second pass merges. *)
Theorem clean_search_term_two_passes :
  (forall s : str,
      clean_search_term (clean_search_term (clean_search_term s))
      = clean_search_term (clean_search_term s))
  /\ (forall s : str,
        (forall c, c ∈ harmful_chars -> c ∉ s) ->
        clean_search_term (clean_search_term s) = clean_search_term s)
  /\ clean_search_term "a < b" = ("a  b" : str)
  /\ clean_search_term (clean_search_term "a < b") = ("a b" : str).
Proof.
  split; [|split; [apply clean_harmless_idemp | by split]].
  intros s. apply clean_harmless_idemp.
  intros c Hc Hin. by apply clean_chars in Hin as [Hh _].
Qed.

Lemma clean_search_term_two_passes_witness :
  clean_search_term (clean_search_term "  machine   learning ")
  = clean_search_term "  machine   learning ".
Proof.
  apply (proj1 (proj2 clean_search_term_two_passes)).
  intros c Hc Hin. unfold harmful_chars in Hc.
  repeat (apply elem_of_cons in Hc as [-> | Hc];
          [apply contains_char in Hin; discriminate Hin|]).
  by apply elem_of_nil in Hc.
Defined.

(** ** Batch validation, further *)

Section BatchFacts.

Implicit Types (s line query : str) (c : ascii).

Lemma split_on_elem (sep : ascii) s line c :
  line ∈ split_on sep s -> c ∈ line -> c ∈ s.
Proof.
  revert line. induction s as [|x s IH]; intros line; simpl.
  - intros H Hc. apply elem_of_cons in H as [-> | H]; [done|].
    by apply elem_of_nil in H.
  - destruct (ch_eqb x sep).
    + intros H Hc. apply elem_of_cons in H as [-> | H].
      * by apply elem_of_nil in Hc.
      * apply elem_of_cons. right. by apply (IH line).
    + destruct (split_on sep s) as [|w ws] eqn:Es.
      { by apply split_on_nonempty in Es. }
      intros H Hc. apply elem_of_cons in H as [-> | H].
      * apply elem_of_cons in Hc as [-> | Hc]; [apply elem_of_cons; by left|].
        apply elem_of_cons. right. apply (IH w); [|done].
        apply elem_of_cons. by left.
      * apply elem_of_cons. right. apply (IH line); [|done].
        apply elem_of_cons. by right.
Qed.

Lemma split_on_covers (sep : ascii) s c :
  c ∈ s -> c <> sep -> exists line, line ∈ split_on sep s /\ c ∈ line.
Proof.
  intros Hin Hsep. induction s as [|x s IH]; [by apply elem_of_nil in Hin|].
  simpl. destruct (ch_eqb x sep) eqn:E.
  - apply ch_eqb_eq in E as ->.
    apply elem_of_cons in Hin as [-> | Hin]; [done|].
    destruct (IH Hin) as (line & Hl & Hc). exists line.
    split; [apply elem_of_cons; by right | done].
  - destruct (split_on sep s) as [|w ws] eqn:Es.
    { by apply split_on_nonempty in Es. }
    apply elem_of_cons in Hin as [-> | Hin].
    + exists (x :: w). split; apply elem_of_cons; by left.
    + destruct (IH Hin) as (line & Hl & Hc).
      apply elem_of_cons in Hl as [-> | Hl].
      * exists (x :: w). split; [apply elem_of_cons; by left|].
        apply elem_of_cons. by right.
      * exists line. split; [apply elem_of_cons; by right | done].
Qed.

Lemma filter_truthy_elem query (l : list str) :
  query ∈ List.filter truthy l <-> query ∈ l /\ query <> [].
Proof.
  rewrite !list_elem_of_In, filter_In, truthy_true. done.
Qed.

Lemma trimmed_lines_elem s query :
  query ∈ trimmed_lines s
  <-> query <> [] /\ exists line, line ∈ split_on newline s /\ query = strip line.
Proof.
  unfold trimmed_lines. rewrite filter_truthy_elem, list_elem_of_fmap.
  split.
  - intros [(line & -> & Hl) Hne]. eauto.
  - intros [Hne (line & Hl & ->)]. eauto.
Qed.

(** A character that is not white space lies on a kept line. *)
Lemma trimmed_lines_covers s c :
  c ∈ s -> isspace c = false ->
  exists line, line ∈ trimmed_lines s /\ c ∈ line.
Proof.
  intros Hin Hc.
  destruct (split_on_covers newline s c Hin) as (line & Hl & Hcl).
  { intros ->. discriminate Hc. }
  exists (strip line). assert (Hs : c ∈ strip line) by by apply strip_keeps.
  split; [|done]. apply trimmed_lines_elem. split; [|eauto].
  intros E. rewrite E in Hs. by apply elem_of_nil in Hs.
Qed.

Lemma trimmed_lines_chars s line c :
  line ∈ trimmed_lines s -> c ∈ line -> c ∈ s.
Proof.
  intros Hl Hc. apply trimmed_lines_elem in Hl as [_ (line0 & Hl0 & ->)].
  apply (split_on_elem newline s line0); [done|]. by apply strip_elem.
Qed.

Lemma nonempty_length {A} (l : list A) : (0 <? length l) = true <-> l <> [].
Proof. destruct l; simpl; [split; [discriminate | done] | done]. Qed.

(** The accepted queries are the non-empty cleaned lines. *)
Lemma validate_batch_input_ok s queries error :
  validate_batch_input s = (true, queries, error) ->
  error = []
  /\ queries
     = List.filter truthy (map clean_search_term (trimmed_lines s)).
Proof.
  rewrite validate_batch_input_exact.
  destruct (truthy (strip s)); cbn [negb]; [|discriminate]. cbv zeta.
  destruct (0 <? length (trimmed_lines s)); cbn [negb]; [|discriminate].
  destruct (50 <? length (trimmed_lines s)); [discriminate|].
  destruct (0 <? length (List.filter truthy _)); cbn [negb]; [|discriminate].
  by intros [= <- <-].
Qed.

End BatchFacts.

(** X15.  The message [No valid queries found] is never returned: an input that
    is not white space only always has a line that is not, so the test the
    message belongs to never holds. *)
Theorem validate_batch_never_without_lines (batch_input : str) :
  (validate_batch_input batch_input).2 <> ("No valid queries found" : str)
  /\ (strip batch_input <> [] -> trimmed_lines batch_input <> []).
Proof.
  assert (H : strip batch_input <> [] -> trimmed_lines batch_input <> []).
  { intros Hne E. apply strip_nonempty_iff in Hne as (c & Hin & Hc).
    destruct (trimmed_lines_covers _ c Hin Hc) as (line & Hl & _).
    rewrite E in Hl. by apply elem_of_nil in Hl. }
  split; [|exact H].
  rewrite validate_batch_input_exact.
  destruct (truthy (strip batch_input)) eqn:E; cbn [negb]; [|discriminate].
  cbv zeta. apply truthy_true, H, nonempty_length in E. rewrite E. clear E.
  cbn [negb].
  destruct (50 <? length _); [discriminate|].
  destruct (0 <? length (List.filter _ _)); cbn [negb]; discriminate.
Qed.

Lemma validate_batch_never_without_lines_witness :
  strip ([newline] ++ " x " ++ [newline]) = "x"
  /\ trimmed_lines ([newline] ++ " x " ++ [newline]) <> [].
Proof.
  split; [reflexivity|].
  apply (proj2 (validate_batch_never_without_lines _)). discriminate.
Defined.

(** X16.  Every query of an accepted batch is clean: it holds no harmful
    character, has no white space at its ends and only plain spaces inside,
    and each of its other characters is a character of the input. *)
Theorem validate_batch_queries_clean
    (batch_input : str) (queries : list str) (error query : str) :
  validate_batch_input batch_input = (true, queries, error) ->
  query ∈ queries ->
  query <> []
  /\ (forall c, c ∈ harmful_chars -> c ∉ query)
  /\ (forall c, head query = Some c -> isspace c = false)
  /\ (forall c, last query = Some c -> isspace c = false)
  /\ (forall c, c ∈ query -> c = " "%char \/ (c ∈ batch_input /\ isspace c = false)).
Proof.
  intros Hok Hq. apply validate_batch_input_ok in Hok as [_ ->].
  apply filter_truthy_elem in Hq as [Hq Hne].
  apply list_elem_of_fmap in Hq as (line & -> & Hl).
  split; [done|]. split; [|split; [|split]].
  - intros c Hc Hin. by apply clean_chars in Hin as [Hh _].
  - apply clean_head.
  - apply clean_last.
  - intros c Hin. apply clean_chars in Hin as [_ [-> | [Hin Hc]]]; [by left|].
    right. split; [|done]. by apply (trimmed_lines_chars _ line).
Qed.

Lemma validate_batch_queries_clean_witness :
  validate_batch_input
    ("digital marketing" ++ [newline] ++ "  <SEO>  'tools' ")
  = (true, ["digital marketing" : str; "SEO tools" : str], [])
  /\ ("SEO tools" : str) <> [].
Proof.
  split; [reflexivity|].
  apply (validate_batch_queries_clean
           ("digital marketing" ++ [newline] ++ "  <SEO>  'tools' ")
           ["digital marketing" : str; "SEO tools" : str] []
           "SEO tools").
  - reflexivity.
  - apply elem_of_cons. right. apply elem_of_cons. by left.
Defined.

(** X17.  When a batch is accepted: exactly when it has at most 50 non-empty
    trimmed lines and holds at least one character that is neither white
    space nor harmful. *)
Theorem validate_batch_accepts_iff (batch_input : str) :
  (validate_batch_input batch_input).1.1 = true
  <-> length (trimmed_lines batch_input) <= 50
      /\ exists c, c ∈ batch_input /\ isspace c = false
                   /\ c ∉ harmful_chars.
Proof.
  rewrite validate_batch_input_exact. split.
  - destruct (truthy (strip batch_input)); cbn [negb]; [|discriminate].
    cbv zeta.
    destruct (0 <? length (trimmed_lines batch_input)); cbn [negb];
      [|discriminate].
    destruct (50 <? length (trimmed_lines batch_input)) eqn:E50;
      [discriminate|].
    apply Nat.ltb_ge in E50.
    destruct (0 <? length (List.filter _ _)) eqn:E0; cbn [negb];
      [|discriminate].
    intros _. split; [done|].
    apply nonempty_length in E0.
    destruct (List.filter truthy _) as [|query rest] eqn:Eq; [done|].
    assert (Hq : query ∈ List.filter truthy
                   (map clean_search_term (trimmed_lines batch_input)))
      by (rewrite Eq; apply elem_of_cons; by left).
    apply filter_truthy_elem in Hq as [Hq Hne].
    apply list_elem_of_fmap in Hq as (line & -> & Hl).
    destruct (clean_search_term line) as [|c r] eqn:Ec; [done|].
    assert (Hc : c ∈ clean_search_term line)
      by (rewrite Ec; apply elem_of_cons; by left).
    assert (Hsp : isspace c = false)
      by (apply (clean_head line); by rewrite Ec).
    apply clean_chars in Hc as [Hh [-> | [Hin _]]]; [discriminate Hsp|].
    exists c. split; [|done]. by apply (trimmed_lines_chars _ line).
  - intros [Hlen (c & Hin & Hc & Hh)].
    assert (Hs : truthy (strip batch_input) = true).
    { apply truthy_true, strip_nonempty_iff. eauto. }
    rewrite Hs. cbn [negb]. cbv zeta.
    destruct (trimmed_lines_covers _ c Hin Hc) as (line & Hl & Hcl).
    assert (H0 : (0 <? length (trimmed_lines batch_input)) = true).
    { apply nonempty_length. intros E. rewrite E in Hl.
      by apply elem_of_nil in Hl. }
    assert (H50 : (50 <? length (trimmed_lines batch_input)) = false)
      by (apply Nat.ltb_ge; lia).
    rewrite H0, H50. cbn [negb].
    assert (Hq : clean_search_term line
                 ∈ List.filter truthy
                     (map clean_search_term (trimmed_lines batch_input))).
    { apply filter_truthy_elem. split.
      - apply list_elem_of_fmap. eauto.
      - intros E. pose proof (clean_keeps line c Hcl Hc Hh) as Hk.
        rewrite E in Hk. by apply elem_of_nil in Hk. }
    assert (H1 : (0 <? length (List.filter truthy
                    (map clean_search_term (trimmed_lines batch_input))))
                 = true).
    { apply nonempty_length. intros E. rewrite E in Hq.
      by apply elem_of_nil in Hq. }
    by rewrite H1.
Qed.

(** ** The two files *)

Section StoreFacts.

Context {entry : Type}.
Variable json_dump : list entry -> str.
Variable json_load : str -> option (list entry).

Implicit Types (history favorites X Y : list entry) (w : world).

Lemma history_favorites_paths :
  HISTORY_FILE <> FAVORITES_FILE /\ FAVORITES_FILE <> HISTORY_FILE.
Proof. split; intros H; vm_compute in H; discriminate H. Qed.

(** What [save_search_history] writes. *)
Lemma save_search_history_files X w :
  files (save_search_history json_dump X w)
  = if io_error w then files w
    else <[HISTORY_FILE :=
             json_dump (if 1000 <? length X then slice_last 1000 X else X)]>
           (files w).
Proof. unfold save_search_history. by destruct (io_error w). Qed.

Lemma save_search_history_io X w :
  io_error (save_search_history json_dump X w) = io_error w.
Proof. unfold save_search_history. by destruct (io_error w) eqn:E. Qed.

Lemma save_favorites_files X w :
  files (save_favorites json_dump X w)
  = if io_error w then files w
    else <[FAVORITES_FILE := json_dump X]> (files w).
Proof. unfold save_favorites. by destruct (io_error w). Qed.

Lemma save_favorites_io X w :
  io_error (save_favorites json_dump X w) = io_error w.
Proof. unfold save_favorites. by destruct (io_error w) eqn:E. Qed.

(** What the loads return depends on the file and the error flag only. *)
Lemma load_search_history_fst w w' :
  files w' !! HISTORY_FILE = files w !! HISTORY_FILE ->
  io_error w' = io_error w ->
  (load_search_history json_load w').1 = (load_search_history json_load w).1.
Proof.
  intros Hf Hio. unfold load_search_history. rewrite Hf, Hio.
  destruct (files w !! HISTORY_FILE); [|done].
  destruct (io_error w); [done|]. by destruct (json_load _).
Qed.

Lemma load_favorites_fst w w' :
  files w' !! FAVORITES_FILE = files w !! FAVORITES_FILE ->
  io_error w' = io_error w ->
  (load_favorites json_load w').1 = (load_favorites json_load w).1.
Proof.
  intros Hf Hio. unfold load_favorites. rewrite Hf, Hio.
  destruct (files w !! FAVORITES_FILE); [|done].
  destruct (io_error w); [done|]. by destruct (json_load _).
Qed.

End StoreFacts.

(** X18.  Favorites round-trip without a cap: when the file can be opened and the
    JSON library reads back what it wrote, [save_favorites X] followed by
    [load_favorites] returns [X] whole, however long [X] is, and the history
    file is not touched. *)
Theorem favorites_roundtrip {entry : Type}
    (json_dump : list entry -> str) (json_load : str -> option (list entry))
    (X : list entry) (w : world) :
  io_error w = false ->
  json_load (json_dump X) = Some X ->
  load_favorites json_load (save_favorites json_dump X w)
  = (X, save_favorites json_dump X w)
  /\ files (save_favorites json_dump X w) !! HISTORY_FILE
     = files w !! HISTORY_FILE.
Proof.
  intros Hio Hjson. unfold save_favorites. rewrite Hio. split.
  - unfold load_favorites, write_file. simpl.
    by rewrite lookup_insert_eq, Hio, Hjson.
  - unfold write_file. simpl.
    by rewrite lookup_insert_ne by apply history_favorites_paths.
Qed.

Lemma favorites_roundtrip_witness :
  let w := {| files := ∅; io_error := false; stdout := [] |} in
  let dump := fun l : list nat => map chr l in
  let load := fun text : str => Some (map ord text) in
  let X := seq 0 100 ++ seq 0 100 in
  fst (load_favorites load (save_favorites dump X w)) = X.
Proof.
  intros w dump load X.
  destruct (favorites_roundtrip dump load X w) as [H _];
    [reflexivity | reflexivity |].
  by rewrite H.
Defined.

(** X19.  The two stores do not disturb each other: saving the history, whether
    it succeeds or not, leaves what [load_favorites] returns as it was, and
    saving the favorites leaves what [load_search_history] returns as it
    was. *)
Theorem history_and_favorites_independent {entry : Type}
    (json_dump : list entry -> str) (json_load : str -> option (list entry))
    (X : list entry) (w : world) :
  (load_favorites json_load (save_search_history json_dump X w)).1
  = (load_favorites json_load w).1
  /\ (load_search_history json_load (save_favorites json_dump X w)).1
     = (load_search_history json_load w).1.
Proof.
  split.
  - apply load_favorites_fst; [|apply save_search_history_io].
    rewrite save_search_history_files. destruct (io_error w); [done|].
    by rewrite lookup_insert_ne by apply history_favorites_paths.
  - apply load_search_history_fst; [|apply save_favorites_io].
    rewrite save_favorites_files. destruct (io_error w); [done|].
    by rewrite lookup_insert_ne by apply history_favorites_paths.
Qed.

(** X20.  A full history rolls: once the list has 1000 entries or more, saving it
    with one entry appended writes what the save before wrote, without its
    first entry and with the new entry at the end. *)
Theorem history_rolling_window {entry : Type}
    (json_dump : list entry -> str) (Y : list entry) (e : entry) (w : world) :
  io_error w = false ->
  1000 <= length Y ->
  files (save_search_history json_dump (Y ++ [e]) w) !! HISTORY_FILE
  = Some (json_dump (drop 1 (drop (length Y - 1000) Y) ++ [e]))
  /\ files (save_search_history json_dump Y w) !! HISTORY_FILE
     = Some (json_dump (drop (length Y - 1000) Y)).
Proof.
  intros Hio Hlen.
  rewrite !save_search_history_files, Hio, !lookup_insert_eq. split.
  - assert (E : (1000 <? length (Y ++ [e])) = true).
    { apply Nat.ltb_lt. rewrite length_app. simpl. lia. }
    rewrite E. unfold slice_last. rewrite length_app. simpl length.
    rewrite drop_drop, drop_app_le by lia.
    by replace (length Y + 1 - 1000) with (length Y - 1000 + 1) by lia.
  - destruct (1000 <? length Y) eqn:E; [done|].
    apply Nat.ltb_ge in E. by replace (length Y - 1000) with 0 by lia.
Qed.

Lemma history_rolling_window_witness :
  files (save_search_history (map chr) (seq 0 1000 ++ [7])
           {| files := ∅; io_error := false; stdout := [] |}) !! HISTORY_FILE
  = Some (map chr (seq 1 999 ++ [7])).
Proof.
  etransitivity.
  - apply (history_rolling_window (map chr) (seq 0 1000) 7);
      [reflexivity | by vm_compute].
  - reflexivity.
Defined.

(** X21.  Saving what was just loaded changes nothing: after a save, loading the
    history and saving it again leaves every file as the first save left
    it. *)
Theorem save_load_save_stable {entry : Type}
    (json_dump : list entry -> str) (json_load : str -> option (list entry))
    (X : list entry) (w : world) :
  let kept := if 1000 <? length X then slice_last 1000 X else X in
  let w1 := save_search_history json_dump X w in
  io_error w = false ->
  json_load (json_dump kept) = Some kept ->
  files (save_search_history json_dump
           (load_search_history json_load w1).1 w1)
  = files w1.
Proof.
  intros kept w1 Hio Hjson.
  assert (Hload : (load_search_history json_load w1).1 = kept).
  { subst w1. unfold save_search_history. fold kept. rewrite Hio.
    rewrite load_after_write by done. by rewrite Hjson. }
  rewrite Hload. rewrite save_search_history_files.
  subst w1. rewrite save_search_history_io, Hio.
  rewrite save_search_history_files, Hio. fold kept.
  assert (Hk : (1000 <? length kept) = false).
  { apply Nat.ltb_ge. subst kept. destruct (1000 <? length X) eqn:E.
    - rewrite slice_last_length. lia.
    - by apply Nat.ltb_ge in E. }
  rewrite Hk. by rewrite insert_insert_eq.
Qed.

Lemma save_load_save_stable_witness :
  let w := {| files := ∅; io_error := false; stdout := [] |} in
  let dump := fun l : list nat => map chr l in
  let load := fun text : str => Some (map ord text) in
  let w1 := save_search_history dump [1; 2] w in
  files (save_search_history dump (load_search_history load w1).1 w1)
  = files w1.
Proof.
  intros w dump load w1.
  apply (save_load_save_stable dump load [1; 2] w); reflexivity.
Defined.

(** ** The catalog, further *)

Section CatalogFacts.

Implicit Types (token operator s : str) (e : operator_info).

Lemma catalog_lookup token :
  SEARCH_OPERATORS !! token = assoc_last token SEARCH_OPERATORS_literal.
Proof. apply dict_literal_lookup. Qed.

Lemma catalog_types :
  Forall (fun kv : str * operator_info =>
            type kv.2 = ("url" : str) \/ type kv.2 = ("keyword" : str))
    SEARCH_OPERATORS_literal.
Proof.
  assert (H : forallb
                (fun kv : str * operator_info =>
                   str_eqb (type kv.2) "url" || str_eqb (type kv.2) "keyword")
                SEARCH_OPERATORS_literal = true) by reflexivity.
  apply forallb_Forall in H.
  eapply Forall_impl; [exact H|]. intros kv Hkv. simpl in Hkv.
  apply orb_true_iff in Hkv as [Hkv|Hkv]; apply str_eqb_eq in Hkv; auto.
Qed.

Lemma catalog_entry_type token e :
  SEARCH_OPERATORS !! token = Some e ->
  type e = ("url" : str) \/ type e = ("keyword" : str).
Proof.
  rewrite catalog_lookup. intros H. apply assoc_last_Some in H.
  pose proof catalog_types as Hall. rewrite Forall_forall in Hall.
  apply (Hall (token, e) H).
Qed.

Lemma operator_info_type token :
  type (get_operator_info token) = ("url" : str)
  \/ type (get_operator_info token) = ("keyword" : str).
Proof.
  unfold get_operator_info, dict_get.
  destruct (SEARCH_OPERATORS !! token) as [e|] eqn:E.
  - by apply (catalog_entry_type token).
  - by right.
Qed.

End CatalogFacts.

(** X22.  Every token has one of the two input kinds: the [type] of
    [get_operator_info] is [url] or [keyword], for catalog entries and for
    the fallback alike, so a caller that branches on the two kinds covers
    every token. *)
Theorem operator_type_two_valued (token : str) :
  type (get_operator_info token) = ("url" : str)
  \/ type (get_operator_info token) = ("keyword" : str).
Proof. apply operator_info_type. Qed.

(** X23.  [get_operators_by_type] sorts the catalog: an entry is in the result
    for a type exactly when it is a catalog entry of that type; every
    catalog entry is in the result for [url] or in the result for
    [keyword], not in both; and any other type gives the empty
    dictionary. *)
Theorem get_operators_by_type_partition :
  (forall (operator_type token : str) (e : operator_info),
      get_operators_by_type operator_type !! token = Some e
      <-> SEARCH_OPERATORS !! token = Some e /\ type e = operator_type)
  /\ (forall (token : str) (e : operator_info),
        SEARCH_OPERATORS !! token = Some e ->
        (get_operators_by_type "url" !! token = Some e
         /\ get_operators_by_type "keyword" !! token = None)
        \/ (get_operators_by_type "url" !! token = None
            /\ get_operators_by_type "keyword" !! token = Some e))
  /\ (forall operator_type : str,
        operator_type <> ("url" : str) ->
        operator_type <> ("keyword" : str) ->
        get_operators_by_type operator_type = ∅).
Proof.
  assert (Hiff : forall (operator_type token : str) (e : operator_info),
             get_operators_by_type operator_type !! token = Some e
             <-> SEARCH_OPERATORS !! token = Some e /\ type e = operator_type).
  { intros t token e. unfold get_operators_by_type.
    by rewrite map_lookup_filter_Some. }
  assert (Hnone : forall (t token : str) (e : operator_info),
             SEARCH_OPERATORS !! token = Some e -> type e <> t ->
             get_operators_by_type t !! token = None).
  { intros t token e He Ht.
    destruct (get_operators_by_type t !! token) as [e'|] eqn:E; [|done].
    apply Hiff in E as [E1 E2]. congruence. }
  split; [exact Hiff|]. split.
  - intros token e He.
    destruct (catalog_entry_type token e He) as [Ht|Ht].
    + left. split; [apply Hiff; split; [exact He | exact Ht]|].
      apply (Hnone _ _ e He). rewrite Ht. intros H. discriminate H.
    + right. split; [|apply Hiff; split; [exact He | exact Ht]].
      apply (Hnone _ _ e He). rewrite Ht. intros H. discriminate H.
  - intros t Hu Hk. apply map_eq. intros token. rewrite lookup_empty.
    destruct (get_operators_by_type t !! token) as [e|] eqn:E; [|done].
    apply Hiff in E as [E1 E2].
    destruct (catalog_entry_type token e E1); congruence.
Qed.

Lemma get_operators_by_type_partition_witness :
  get_operators_by_type "URL" = ∅
  /\ get_operators_by_type "keyword" !! ("site:" : str) = None.
Proof.
  destruct get_operators_by_type_partition as (_ & Hsort & Hother).
  split.
  - apply Hother; discriminate.
  - destruct (Hsort "site:" (get_operator_info "site:")
                ltac:(vm_compute; reflexivity))
      as [[_ H] | [H _]]; [exact H|].
    exfalso.
    destruct (get_operators_by_type "url" !! ("site:" : str)) as [e|] eqn:E;
      [discriminate H|].
    assert (H' : get_operators_by_type "url" !! ("site:" : str)
                 = Some (get_operator_info "site:")).
    { apply (proj1 get_operators_by_type_partition). split.
      - vm_compute. reflexivity.
      - reflexivity. }
    congruence.
Defined.

(** ** Display and suggestions *)

Section DisplayFacts.

Lemma suggestions_checked :
  Forall
    (fun kv : str * list str =>
       kv.1 ∈ SEARCH_OPERATORS_literal.*1
       /\ Forall
            (fun s => validate_keyword s = true
                      /\ (type (get_operator_info kv.1) = ("url" : str) ->
                          validate_url s = Some true))
            kv.2)
    suggestions_literal.
Proof.
  pose (check := fun kv : str * list str =>
          str_in kv.1 (SEARCH_OPERATORS_literal.*1)
          && forallb
               (fun s => validate_keyword s
                         && (negb (str_eqb (type (get_operator_info kv.1)) "url")
                             || match validate_url s with
                                | Some true => true
                                | _ => false
                                end))
               kv.2).
  assert (H : forallb check suggestions_literal = true)
    by (vm_compute; reflexivity).
  apply forallb_Forall in H. eapply Forall_impl; [exact H|].
  intros [operator l] Hkv. unfold check in Hkv. cbn [fst snd] in *.
  apply andb_true_iff in Hkv as [Hkey Hl]. split.
  - by apply list_elem_of_In, str_in_In.
  - apply forallb_Forall in Hl. eapply Forall_impl; [exact Hl|].
    intros s Hs. cbv beta in Hs. apply andb_true_iff in Hs as [Hk Hu].
    split; [done|]. intros Ht.
    apply str_eqb_eq in Ht. rewrite Ht in Hu. cbn [negb orb] in Hu.
    clear -Hu.
    destruct (validate_url s) as [[]|];
      [reflexivity | discriminate Hu | discriminate Hu].
Qed.

End DisplayFacts.

(** X24.  The suggestions fit the operator they are offered for: an operator that
    has suggestions is in the catalog, each suggestion passes
    [validate_keyword], and each suggestion for an operator of type [url]
    passes [validate_url]; an operator outside the suggestion table has
    none. *)
Theorem suggestions_fit_operator (operator : str) :
  (forall s : str,
      s ∈ get_search_suggestions operator ->
      operator ∈ SEARCH_OPERATORS_literal.*1
      /\ validate_keyword s = true
      /\ (type (get_operator_info operator) = ("url" : str) ->
          validate_url s = Some true))
  /\ (operator ∉ suggestions_literal.*1 ->
      get_search_suggestions operator = []).
Proof.
  unfold get_search_suggestions, dict_get. rewrite dict_literal_lookup.
  split.
  - intros s Hs.
    destruct (assoc_last operator suggestions_literal) as [l|] eqn:E;
      [|by apply elem_of_nil in Hs].
    apply assoc_last_Some in E.
    pose proof suggestions_checked as Hall. rewrite Forall_forall in Hall.
    destruct (Hall _ E) as [Hkey Hl]. cbn [fst snd] in *.
    rewrite Forall_forall in Hl. destruct (Hl s Hs). done.
  - intros H. apply assoc_last_None in H. by rewrite H.
Qed.

Lemma suggestions_fit_operator_witness :
  validate_url "stackoverflow.com" = Some true
  /\ get_search_suggestions "link:" = [].
Proof.
  split.
  - apply (proj1 (suggestions_fit_operator "site:") "stackoverflow.com").
    + apply elem_of_cons. right. apply elem_of_cons. by left.
    + vm_compute. reflexivity.
  - apply (proj2 (suggestions_fit_operator "link:")).
    apply assoc_last_None. reflexivity.
Defined.

(** X25.  The displayed query is the built query whenever no date, no AROUND
    rewriting and no quoting comes in: for an operator outside the first
    three rules and a term without white space at its ends, when the
    operator does not end in a colon, or takes a URL, or the term has no
    space or is already wrapped in double quotes. *)
Theorem display_agrees_with_query (operator term : str) (extra : params) :
  operator ∉ earlier_rule_operators ->
  strip term = term ->
  last operator <> Some ":"%char
  \/ operator ∈ url_operators
  \/ " "%char ∉ term
  \/ (head term = Some dquote /\ last term = Some dquote) ->
  build_query operator term extra
  = format_search_query_for_display operator term.
Proof.
  intros Hearlier Hstrip Hcase. unfold format_search_query_for_display.
  destruct (endswith operator ":") eqn:Ecolon.
  - apply endswith_char in Ecolon as Hlast.
    rewrite build_query_colon, Hstrip by done.
    destruct (str_in operator url_operators) eqn:Eurl; [done|].
    change (contains " " term) with (contains [" "%char] term).
    destruct Hcase as [H | [H | [H | [H1 H2]]]].
    + done.
    + apply list_elem_of_In, str_in_In in H. rewrite H in Eurl.
      discriminate Eurl.
    + apply contains_char_false in H. by rewrite H.
    + apply startswith_char in H1. apply endswith_char in H2.
      fold q in H1, H2. rewrite H1, H2. cbn [andb negb].
      by rewrite andb_false_r.
  - assert (Hlast : last operator <> Some ":"%char).
    { intros H. apply endswith_char in H.
      change (endswith operator ":" = true) in H.
      rewrite Ecolon in H. discriminate H. }
    clear Hcase.
    assert (H1 : str_in operator ["before:" : str; "after:" : str] = false).
    { apply str_in_not_In. intros H. apply Hearlier, list_elem_of_In.
      unfold earlier_rule_operators. simpl in *. tauto. }
    assert (H2 : str_eqb operator "daterange:" = false).
    { apply str_eqb_neq. intros ->. apply Hearlier, list_elem_of_In.
      simpl. tauto. }
    assert (H3 : str_eqb operator "around(X):" = false).
    { apply str_eqb_neq. intros ->. apply Hearlier, list_elem_of_In.
      simpl. tauto. }
    unfold build_query. by rewrite H1, H2, H3, Ecolon, Hstrip.
Qed.

Lemma display_agrees_with_query_witness :
  build_query "site:" "example.com" None
  = format_search_query_for_display "site:" "example.com"
  /\ build_query "OR" "cats dogs" None
     = format_search_query_for_display "OR" "cats dogs".
Proof.
  split.
  - apply display_agrees_with_query.
    + rewrite list_elem_of_In. apply str_in_not_In. reflexivity.
    + reflexivity.
    + right. left. apply list_elem_of_In, str_in_In. reflexivity.
  - apply display_agrees_with_query.
    + rewrite list_elem_of_In. apply str_in_not_In. reflexivity.
    + reflexivity.
    + left. discriminate.
Defined.

(** ** The handlers of [app.py] *)

Section HandlerFacts.

Variable json_dump : list App.history_entry -> str.

Implicit Types (st : App.session) (w : world).

Lemma foldl_imap_snoc {A B} (f : nat -> A -> B) (g : nat -> nat)
    (acc : list B) (l : list A) :
  foldl (fun acc il => acc ++ [f il.1 il.2]) acc
    (imap (fun i x => (g i, x)) l)
  = acc ++ imap (fun i x => f (g i) x) l.
Proof.
  revert acc g. induction l as [|x l IH]; intros acc g; simpl.
  - by rewrite app_nil_r.
  - change (imap ((fun i x => (g i, x)) ∘ S) l)
      with (imap (fun i x => ((g ∘ S) i, x)) l).
    rewrite IH. by rewrite <- app_assoc.
Qed.

Lemma foldl_imap_snoc2 {A B C} (u : A -> B) (h : nat -> A -> C)
    (g : nat -> nat) (a : list B) (b : list C) (l : list A) :
  foldl (fun acc il => (acc.1 ++ [u il.2], acc.2 ++ [h il.1 il.2])) (a, b)
    (imap (fun i x => (g i, x)) l)
  = (a ++ map u l, b ++ imap (fun i x => h (g i) x) l).
Proof.
  revert a b g. induction l as [|x l IH]; intros a b g; simpl.
  - by rewrite !app_nil_r.
  - change (imap ((fun i x => (g i, x)) ∘ S) l)
      with (imap (fun i x => ((g ∘ S) i, x)) l).
    rewrite IH. by rewrite <- !app_assoc.
Qed.

(** The quick search, branch by branch, with the validators' results. *)
Lemma quick_search_exact now selected_category selected_operator
    search_input date_input search_button st w :
  App.quick_search json_dump now selected_category selected_operator
    search_input date_input search_button st w
  = Some
      (if search_button && truthy search_input then
         if str_eqb (type (get_operator_info selected_operator)) "url"
            && negb (bool_decide (validate_url search_input = Some true))
         then (App.InvalidUrl, st, w)
         else if str_eqb (type (get_operator_info selected_operator)) "keyword"
                 && negb (validate_keyword search_input)
         then (App.InvalidKeyword, st, w)
         else
           let search_url :=
             build_search_url selected_operator search_input
               (Some (App.quick_search_params selected_operator date_input)) in
           let history :=
             App.search_history st
             ++ [ {| App.timestamp := now;
                     App.operator := selected_operator;
                     App.query := search_input;
                     App.url := search_url;
                     App.category := Some selected_category;
                     App.batch := None |} ] in
           (App.Opened search_url, App.with_history history st,
            save_search_history json_dump history w)
       else (App.NotSubmitted, st, w)).
Proof.
  unfold App.quick_search.
  destruct (search_button && truthy search_input); [|done].
  destruct (validate_url_total search_input) as [b Hb]. rewrite Hb.
  destruct (str_eqb (type (get_operator_info selected_operator)) "url");
    [|done].
  by destruct b.
Qed.

(** The lines the queue handler keeps are the trimmed non-empty lines. *)
Lemma add_to_queue_exact now batch_operator batch_input st :
  App.add_to_queue now batch_operator batch_input st
  = if truthy batch_input then
      if 50 <? length (trimmed_lines batch_input) then (App.TooMany, st)
      else
        (App.Added (length (trimmed_lines batch_input)),
         App.with_queue
           (App.batch_queries st
            ++ imap (fun i line =>
                       {| App.bq_operator := batch_operator;
                          App.bq_query := line;
                          App.bq_timestamp := now i |})
                 (trimmed_lines batch_input))
           st)
    else (App.NothingEntered, st).
Proof.
  unfold App.add_to_queue, trimmed_lines. rewrite kept_lines_trimmed.
  destruct (truthy batch_input); [|done].
  destruct (50 <? length _); [done|].
  do 2 f_equal.
  exact (foldl_imap_snoc
           (fun i line => {| App.bq_operator := batch_operator;
                             App.bq_query := line;
                             App.bq_timestamp := now i |}) id _ _).
Qed.

Lemma execute_batch_exact now st w :
  App.batch_queries st <> [] ->
  App.execute_batch json_dump now st w
  = let history :=
      App.search_history st
      ++ imap (fun i q =>
                 {| App.timestamp := now i;
                    App.operator := App.bq_operator q;
                    App.query := App.bq_query q;
                    App.url :=
                      build_search_url (App.bq_operator q) (App.bq_query q)
                        None;
                    App.category := None;
                    App.batch := Some true |})
          (App.batch_queries st) in
    (map (fun q =>
            build_search_url (App.bq_operator q) (App.bq_query q) None)
       (App.batch_queries st),
     App.with_history history st,
     save_search_history json_dump history w).
Proof.
  intros Hne. unfold App.execute_batch.
  destruct (App.batch_queries st) as [|q0 queue] eqn:E; [done|].
  rewrite <- E. clear E.
  set (r := foldl _ _ _).
  assert (Hr : r = (map (fun q =>
                           build_search_url (App.bq_operator q)
                             (App.bq_query q) None)
                      (App.batch_queries st),
                    App.search_history st
                    ++ imap (fun i q =>
                               {| App.timestamp := now i;
                                  App.operator := App.bq_operator q;
                                  App.query := App.bq_query q;
                                  App.url :=
                                    build_search_url (App.bq_operator q)
                                      (App.bq_query q) None;
                                  App.category := None;
                                  App.batch := Some true |})
                        (App.batch_queries st))).
  { subst r.
    exact (foldl_imap_snoc2
             (fun q => build_search_url (App.bq_operator q) (App.bq_query q)
                         None)
             (fun i q =>
                {| App.timestamp := now i;
                   App.operator := App.bq_operator q;
                   App.query := App.bq_query q;
                   App.url :=
                     build_search_url (App.bq_operator q) (App.bq_query q)
                       None;
                   App.category := None;
                   App.batch := Some true |})
             id [] (App.search_history st) (App.batch_queries st)). }
  by rewrite Hr.
Qed.

End HandlerFacts.

(** X26.  The quick search opens a URL only for an input that the validator of
    the operator's kind accepts: [validate_url] for an operator of type
    [url], [validate_keyword] for one of type [keyword], the fallback for
    unknown operators included.  So it opens nothing for an empty or
    white-space-only input, and what it opens is the URL built for the
    input as typed with the parameters of the chosen operator. *)
Theorem quick_search_opens_only_valid
    (json_dump : list App.history_entry -> str)
    (now selected_category selected_operator search_input date_input : str)
    (search_button : bool) (st st' : App.session) (w w' : world)
    (search_url : str) :
  App.quick_search json_dump now selected_category selected_operator
    search_input date_input search_button st w
  = Some (App.Opened search_url, st', w') ->
  search_button = true
  /\ (type (get_operator_info selected_operator) = ("url" : str) ->
      validate_url search_input = Some true)
  /\ (type (get_operator_info selected_operator) = ("keyword" : str) ->
      validate_keyword search_input = true)
  /\ (exists c, c ∈ search_input /\ isspace c = false)
  /\ search_url
     = build_search_url selected_operator search_input
         (Some (App.quick_search_params selected_operator date_input)).
Proof.
  intros H. rewrite quick_search_exact in H. cbv zeta in H.
  apply (inj Some) in H.
  pose proof (operator_info_type selected_operator) as Hty.
  assert (Hsp_url : validate_url search_input = Some true ->
                    exists c, c ∈ search_input /\ isspace c = false).
  { intros Hv. destruct (all_space_or_not search_input) as [Hall|Hc]; [|done].
    apply validate_url_all_space in Hall. congruence. }
  assert (Hsp_kw : validate_keyword search_input = true ->
                   exists c, c ∈ search_input /\ isspace c = false).
  { intros Hv. by apply validate_keyword_iff in Hv as [Hc _]. }
  remember (type (get_operator_info selected_operator)) as ty eqn:Ety in *.
  remember (validate_keyword search_input) as vk eqn:Evk in *.
  remember (validate_url search_input) as vu eqn:Evu in *.
  remember (truthy search_input) as tr eqn:Etr in *.
  remember (build_search_url selected_operator search_input
              (Some (App.quick_search_params selected_operator date_input)))
    as u0 eqn:Eu0 in *.
  remember (save_search_history json_dump _ w) as w0 eqn:Ew0 in *.
  remember (App.with_history _ st) as st0 eqn:Est0 in *.
  clear Ety Evk Evu Etr Eu0 Ew0 Est0.
  destruct search_button; [|discriminate H]. cbn [andb] in H.
  destruct tr; [|discriminate H].
  destruct Hty as [-> | ->].
  - change (str_eqb "url" "url") with true in H.
    change (str_eqb "url" "keyword") with false in H. cbn [andb] in H.
    case_bool_decide as Hv; cbn [negb] in H; [|discriminate H].
    injection H as <- _ _.
    split; [done|]. split; [done|]. split; [discriminate|].
    split; [by apply Hsp_url | done].
  - change (str_eqb "keyword" "url") with false in H.
    change (str_eqb "keyword" "keyword") with true in H. cbn [andb] in H.
    destruct vk; cbn [negb] in H; [|discriminate H].
    injection H as <- _ _.
    split; [done|]. split; [discriminate|]. split; [done|].
    split; [by apply Hsp_kw | done].
Qed.

Lemma quick_search_opens_only_valid_witness :
  validate_url "example.com" = Some true.
Proof.
  pose (st := {| App.search_history := []; App.favorites := [];
                 App.batch_queries := [] |}).
  pose (w := {| files := ∅; io_error := false; stdout := [] |}).
  pose (url := build_search_url "site:" "example.com" (Some ∅)).
  pose (entry := {| App.timestamp := "2024-01-01T00:00:00" : str;
                    App.operator := "site:" : str;
                    App.query := "example.com" : str;
                    App.url := url;
                    App.category := Some ("Site" : str);
                    App.batch := None |}).
  refine (proj1 (proj2 (quick_search_opens_only_valid (fun _ => [])
            "2024-01-01T00:00:00" "Site" "site:" "example.com" "2024-01-01"
            true st (App.with_history [entry] st) w
            (save_search_history (fun _ => []) [entry] w) url _)) _).
  - vm_compute. reflexivity.
  - reflexivity.
Defined.

(** X27.  The queue button.  The cap of 50 is on one submission, counted in
    non-empty trimmed lines: more than 50 leaves the queue as it is;
    otherwise the queue grows by exactly that many items, after the items it
    had, one for each line in order, with the chosen operator and the
    trimmed line, which is not cleaned.  So the queue itself has no bound,
    and an input of white space only is accepted and adds nothing. *)
Theorem add_to_queue_effects
    (now : nat -> str) (batch_operator batch_input : str) (st : App.session) :
  let n := length (trimmed_lines batch_input) in
  let result := (App.add_to_queue now batch_operator batch_input st).1 in
  let st' := (App.add_to_queue now batch_operator batch_input st).2 in
  let old := App.batch_queries st in
  let new := drop (length old) (App.batch_queries st') in
  (batch_input = [] -> result = App.NothingEntered /\ st' = st)
  /\ (batch_input <> [] -> 50 < n -> result = App.TooMany /\ st' = st)
  /\ (batch_input <> [] -> n <= 50 ->
      result = App.Added n
      /\ App.batch_queries st' = old ++ new
      /\ length new = n
      /\ map App.bq_query new = trimmed_lines batch_input
      /\ Forall (fun item => App.bq_operator item = batch_operator) new
      /\ App.search_history st' = App.search_history st
      /\ App.favorites st' = App.favorites st).
Proof.
  intros n result st' old new. subst result st' new.
  rewrite add_to_queue_exact. fold n. split; [|split].
  - by intros ->.
  - intros Hne Hn. apply truthy_true in Hne. rewrite Hne.
    assert (E : (50 <? n) = true) by by apply Nat.ltb_lt.
    by rewrite E.
  - intros Hne Hn. apply truthy_true in Hne. rewrite Hne.
    assert (E : (50 <? n) = false) by (apply Nat.ltb_ge; lia).
    rewrite E. cbn [fst snd App.with_queue App.batch_queries
                    App.search_history App.favorites].
    fold old. rewrite drop_app_length.
    split; [done|]. split; [done|]. split; [by rewrite length_imap|].
    split; [|split; [|done]].
    + clear. generalize (trimmed_lines batch_input). intros l.
      revert now. induction l as [|x l IH]; intros now; [done|].
      cbn [imap map]. f_equal. apply (IH (now ∘ S)).
    + clear. generalize (trimmed_lines batch_input). intros l.
      revert now. induction l as [|x l IH]; intros now; [constructor|].
      cbn [imap]. constructor; [done|]. apply (IH (now ∘ S)).
Qed.

Lemma add_to_queue_effects_witness :
  (App.add_to_queue (fun _ => "t" : str) "site:"
     ("  a.com " ++ [newline] ++ [newline] ++ "<b>")
     {| App.search_history := []; App.favorites := [];
        App.batch_queries := [] |}).1
  = App.Added 2
  /\ (App.add_to_queue (fun _ => "t" : str) "site:"
        (concat (replicate 51 ("x" ++ [newline])))
        {| App.search_history := []; App.favorites := [];
           App.batch_queries := [] |}).1
     = App.TooMany.
Proof.
  split.
  - apply (proj2 (proj2 (add_to_queue_effects (fun _ => "t" : str) "site:"
                           ("  a.com " ++ [newline] ++ [newline] ++ "<b>")
                           _))).
    + discriminate.
    + vm_compute. lia.
  - apply (proj1 (proj2 (add_to_queue_effects (fun _ => "t" : str) "site:"
                           (concat (replicate 51 ("x" ++ [newline]))) _))).
    + discriminate.
    + vm_compute. lia.
Defined.

(** X28.  Running the batch.  With a queue that is not empty there is one URL for
    each item, in the order of the queue, built without extra parameters; the
    history of the session grows by one entry for each item, marked as a
    batch entry and without a category; the queue is left as it is, so
    running it again records the same searches again; and an item with the
    operator [before:] or [after:] always gets the date [2020-01-01],
    there being no date in a batch. *)
Theorem execute_batch_effects
    (json_dump : list App.history_entry -> str)
    (now : nat -> str) (st : App.session) (w : world) :
  App.batch_queries st <> [] ->
  let search_urls := (App.execute_batch json_dump now st w).1.1 in
  let st' := (App.execute_batch json_dump now st w).1.2 in
  let w' := (App.execute_batch json_dump now st w).2 in
  let new := drop (length (App.search_history st)) (App.search_history st') in
  search_urls
  = map (fun item =>
           build_search_url (App.bq_operator item) (App.bq_query item) None)
      (App.batch_queries st)
  /\ App.batch_queries st' = App.batch_queries st
  /\ App.favorites st' = App.favorites st
  /\ App.search_history st' = App.search_history st ++ new
  /\ map App.url new = search_urls
  /\ map App.query new = map App.bq_query (App.batch_queries st)
  /\ Forall (fun entry => App.batch entry = Some true
                          /\ App.category entry = None) new
  /\ w' = save_search_history json_dump (App.search_history st') w
  /\ (forall item,
        item ∈ App.batch_queries st ->
        App.bq_operator item ∈ ["before:" : str; "after:" : str] ->
        build_query (App.bq_operator item) (App.bq_query item) None
        = App.bq_operator item ++ "2020-01-01 " ++ strip (App.bq_query item)).
Proof.
  intros Hne search_urls st' w' new. subst search_urls st' w' new.
  rewrite execute_batch_exact by done.
  cbn [fst snd App.with_history App.batch_queries App.search_history
       App.favorites].
  rewrite drop_app_length.
  split; [done|]. split; [done|]. split; [done|]. split; [done|].
  split; [|split; [|split; [|split; [done|]]]].
  - generalize (App.batch_queries st). clear. intros l.
    revert now. induction l as [|x l IH]; intros now; [done|].
    cbn [imap map]. f_equal. apply (IH (now ∘ S)).
  - generalize (App.batch_queries st). clear. intros l.
    revert now. induction l as [|x l IH]; intros now; [done|].
    cbn [imap map]. f_equal. apply (IH (now ∘ S)).
  - generalize (App.batch_queries st). clear. intros l.
    revert now. induction l as [|x l IH]; intros now; [constructor|].
    cbn [imap]. constructor; [done|]. apply (IH (now ∘ S)).
  - intros item _ Hop.
    assert (H : str_in (App.bq_operator item)
                  ["before:" : str; "after:" : str] = true)
      by by apply str_in_In, list_elem_of_In.
    unfold build_query. by rewrite H.
Qed.

Lemma execute_batch_effects_witness :
  (App.execute_batch (fun _ => []) (fun _ => "t" : str)
     {| App.search_history := []; App.favorites := [];
        App.batch_queries :=
          [ {| App.bq_operator := "after:" : str;
               App.bq_query := "AI" : str;
               App.bq_timestamp := "t" : str |} ] |}
     {| files := ∅; io_error := false; stdout := [] |}).1.1
  = ["https://www.google.com/search?q=after%3A2020-01-01+AI&num=100" : str].
Proof.
  etransitivity.
  - apply (execute_batch_effects (fun _ => []) (fun _ => "t" : str)).
    discriminate.
  - vm_compute. reflexivity.
Defined.




